(** * TravelTracker: the map/selection synchronisation layer

    A shallow embedding of the selection store, the scope switch, the
    region loaders, the fit-to-viewport computation and the list filter of
    [src/App.tsx], together with the four-scope revision of the same
    component (world, usa, europe, china) and the total used by the
    six-scope revision.

    Conventions.
    - A JavaScript string is a [string] whose characters are UTF-16 code
      units below 256 (the Latin-1 range); region names in the data sets
      are in that range.
    - [Set<string>] is a [gset string]: only membership and size are
      observed by the component.
    - React state is an explicit record; every handler is a function on
      that record.  What the browser or d3 supplies (a fetch outcome, the
      container size, projected bounds) is an argument of the handler.
    - An asynchronous handler is split where it awaits a request: the
      component between events is a session ([step]), in which the user
      can go on while a request is pending.  The same handler with
      nothing happening while it waits is a function of what the request
      yields. *)

From Stdlib Require Import ZArith QArith Qround Qcanon SpecFloat Lqa.
From Stdlib Require Import Ascii String DecimalString.
From stdpp Require Import gmap strings list sorting.

Local Open Scope string_scope.
#[local] Set Warnings "-clear-no-such-hyp".

(** ** JavaScript strings *)

Module JsString.

Definition code (c : ascii) : N := N_of_ascii c.

(** The class [\s] of a JavaScript regular expression, restricted to code
    units below 256: TAB, LF, VT, FF, CR, space and NBSP. *)
Definition isWhiteSpace (c : ascii) : bool :=
  let n := code c in
  (((9 <=? n) && (n <=? 13)) || (n =? 32) || (n =? 160))%N.

(** The class [[a-zA-Z0-9-]]. *)
Definition isAlnumOrHyphen (c : ascii) : bool :=
  let n := code c in
  (((48 <=? n) && (n <=? 57)) || ((65 <=? n) && (n <=? 90))
   || ((97 <=? n) && (n <=? 122)) || (n =? 45))%N.

(** [s.replace(/\s/g, '-')] *)
Fixpoint replaceWhiteSpace (s : string) : string :=
  match s with
  | EmptyString => EmptyString
  | String c s' =>
      String (if isWhiteSpace c then "-"%char else c) (replaceWhiteSpace s')
  end.

(** [s.replace(/[^a-zA-Z0-9-]/g, '')] *)
Fixpoint removeOtherChars (s : string) : string :=
  match s with
  | EmptyString => EmptyString
  | String c s' =>
      if isAlnumOrHyphen c then String c (removeOtherChars s')
      else removeOtherChars s'
  end.

(** [name.replace(/\s/g, '-').replace(/[^a-zA-Z0-9-]/g, '')], the
    identifier under which a region's path ([data-name]) and list row
    ([id="list-..."]) are addressed. *)
Definition normalizedName (locationName : string) : string :=
  removeOtherChars (replaceWhiteSpace locationName).

(** [String.prototype.toLowerCase] on code units below 256: A-Z and the
    Latin-1 capitals U+00C0..U+00DE (U+00D7 excepted) move up by 32. *)
Definition lowerChar (c : ascii) : ascii :=
  let n := code c in
  if (((65 <=? n) && (n <=? 90))
      || ((192 <=? n) && (n <=? 222) && negb (n =? 215)))%N
  then ascii_of_N (n + 32) else c.

Fixpoint toLowerCase (s : string) : string :=
  match s with
  | EmptyString => EmptyString
  | String c s' => String (lowerChar c) (toLowerCase s')
  end.

(** [s.includes(q)]: [q] occurs in [s] at some position. *)
Fixpoint includes (s q : string) : bool :=
  String.prefix q s
  || match s with
     | EmptyString => false
     | String _ s' => includes s' q
     end.

(** Truthiness of a string: only the empty string is falsy. *)
Definition truthy (s : string) : bool :=
  match s with EmptyString => false | _ => true end.

(** [Array.prototype.sort()] without a comparator on an array of strings:
    ascending in the code-unit order.  Equal strings are
    indistinguishable, so the result does not depend on the engine's
    algorithm; merge sort computes it. *)
Definition sort (l : list string) : list string := merge_sort String.le l.

End JsString.

(** ** Numbers *)

(** *** Binary64, for the percentage

    [Number.prototype.toFixed] rounds the exact value of the double, so the
    percentage is computed on IEEE doubles: [SpecFloat] with precision 53
    and [emax] 1024. *)

Module F64.

Definition prec : Z := 53.
Definition emax : Z := 1024.

Definition ofNat (n : nat) : spec_float :=
  binary_normalize prec emax (Z.of_nat n) 0 false.

Definition div : spec_float -> spec_float -> spec_float := SFdiv prec emax.
Definition mul : spec_float -> spec_float -> spec_float := SFmul prec emax.

(** Decimal digits of a natural number, ["0"] for zero. *)
Definition digits (n : Z) : string :=
  DecimalString.NilZero.string_of_uint (N.to_uint (Z.to_N n)).

(** [m * 2^e >= 10^21] *)
Definition atLeast1e21 (m : positive) (e : Z) : bool :=
  (if 0 <=? e then 10 ^ 21 <=? Z.pos m * 2 ^ e
   else 10 ^ 21 * 2 ^ (- e) <=? Z.pos m)%Z.

(** The integer [n] for which [n / 10 - m * 2^e] is closest to zero, the
    larger one when there are two. *)
Definition nearestTenths (m : positive) (e : Z) : Z :=
  (if 0 <=? e then 10 * Z.pos m * 2 ^ e
   else (20 * Z.pos m + 2 ^ (- e)) / 2 ^ (1 - e))%Z.

(** [x.toFixed(1)].  A value of magnitude [10^21] or more is printed by
    [Number::toString] in exponent form, which is not modelled: the
    result is [None] there. *)
Definition toFixed1 (x : spec_float) : option string :=
  match x with
  | S754_nan => Some "NaN"
  | S754_infinity false => Some "Infinity"
  | S754_infinity true => Some "-Infinity"
  | S754_zero _ => Some "0.0"
  | S754_finite s m e =>
      if atLeast1e21 m e then None
      else
        let n := nearestTenths m e in
        Some ((if s then "-" else "")
                +:+ digits (n / 10) +:+ "." +:+ digits (n mod 10))
  end.

End F64.

(** *** Extended rationals, for the fit transform

    The fit computation only adds, subtracts, multiplies, divides and
    compares.  It is modelled on exact rationals extended with the IEEE
    special values, with the special-value rules of JavaScript arithmetic
    (division by zero, [Infinity - Infinity], [0 * Infinity], [NaN]
    propagation); the rounding of finite results is abstracted away and
    zero is unsigned. *)

Module JsNum.

Inductive num : Type :=
| NaN
| PInf
| NInf
| Fin (q : Qc).

Definition ofZ (z : Z) : num := Fin (Q2Qc (inject_Z z)).

Definition zero : num := ofZ 0.
Definition one : num := ofZ 1.
Definition two : num := ofZ 2.

Definition neg (a : num) : num :=
  match a with
  | NaN => NaN
  | PInf => NInf
  | NInf => PInf
  | Fin q => Fin (- q)
  end.

Definition add (a b : num) : num :=
  match a, b with
  | NaN, _ | _, NaN => NaN
  | PInf, NInf | NInf, PInf => NaN
  | PInf, _ | _, PInf => PInf
  | NInf, _ | _, NInf => NInf
  | Fin p, Fin q => Fin (p + q)
  end.

Definition sub (a b : num) : num := add a (neg b).

(** Sign of a rational as a comparison with zero. *)
Definition sgn (q : Qc) : comparison := (q ?= 0)%Qc.

Definition inf_times (positive_inf : bool) (q : Qc) : num :=
  match sgn q with
  | Eq => NaN
  | Gt => if positive_inf then PInf else NInf
  | Lt => if positive_inf then NInf else PInf
  end.

Definition mul (a b : num) : num :=
  match a, b with
  | NaN, _ | _, NaN => NaN
  | PInf, PInf | NInf, NInf => PInf
  | PInf, NInf | NInf, PInf => NInf
  | PInf, Fin q | Fin q, PInf => inf_times true q
  | NInf, Fin q | Fin q, NInf => inf_times false q
  | Fin p, Fin q => Fin (p * q)
  end.

Definition div (a b : num) : num :=
  match a, b with
  | NaN, _ | _, NaN => NaN
  | (PInf | NInf), (PInf | NInf) => NaN
  | PInf, Fin q => match sgn q with Lt => NInf | _ => PInf end
  | NInf, Fin q => match sgn q with Lt => PInf | _ => NInf end
  | Fin _, (PInf | NInf) => zero
  | Fin p, Fin q =>
      match sgn q with
      | Eq => match sgn p with Eq => NaN | Gt => PInf | Lt => NInf end
      | _ => Fin (p / q)
      end
  end.

(** [Math.min(a, b)] *)
Definition min (a b : num) : num :=
  match a, b with
  | NaN, _ | _, NaN => NaN
  | NInf, _ | _, NInf => NInf
  | PInf, c | c, PInf => c
  | Fin p, Fin q => match (p ?= q)%Qc with Gt => Fin q | _ => Fin p end
  end.

(** [a === b] on numbers: [NaN] equals nothing. *)
Definition strictEq (a b : num) : bool :=
  match a, b with
  | PInf, PInf | NInf, NInf => true
  | Fin p, Fin q => match (p ?= q)%Qc with Eq => true | _ => false end
  | _, _ => false
  end.


Definition isFinite (a : num) : bool :=
  match a with Fin _ => true | _ => false end.

End JsNum.

(** ** d3-zoom transforms

    [d3.zoomIdentity], [transform.translate] and [transform.scale] as the
    d3-zoom library defines them. *)

Module Zoom.
Import JsNum.

Record ZoomTransform : Type := Transform { k : num; x : num; y : num }.

Definition zoomIdentity : ZoomTransform := Transform one zero zero.

Definition translate (t : ZoomTransform) (tx ty : num) : ZoomTransform :=
  if strictEq tx zero && strictEq ty zero then t
  else Transform (k t) (add (x t) (mul (k t) tx)) (add (y t) (mul (k t) ty)).

Definition scale (t : ZoomTransform) (s : num) : ZoomTransform :=
  if strictEq s one then t
  else Transform (mul (k t) s) (x t) (y t).


End Zoom.

(** ** Region data *)

Inductive Geometry : Type :=
| Polygon
| MultiPolygon
| GeometryCollection
| OtherGeometry.

(** A feature as the data sets supply it.  [name] is [properties.name] and
    [NAME] is [properties.NAME]; the empty string stands for an absent or
    empty property (both are falsy).  Coordinates are not represented: the
    component hands them to d3 unexamined. *)
Record GeoFeature : Type := Feature {
  name : string;
  NAME : string;
  geometry : option Geometry
}.

(** What [await d3.json(url)] yields. *)
Inductive FetchResult (A : Type) : Type :=
| FetchRejected (reason : string)  (* network error, HTTP error, unparsable body *)
| FetchNoContent                   (* resolves with [undefined] *)
| FetchResolved (doc : A).

Arguments FetchRejected {A} reason.
Arguments FetchNoContent {A}.
Arguments FetchResolved {A} doc.

(** A TopoJSON topology: for each key of [objects], the features that
    [feature(topology, objects[key])] converts it to. *)
Record Topology : Type := { objects : gmap string (list GeoFeature) }.

Inductive NotificationType : Type := success | error.

Record Notification : Type := Notify {
  message : string;
  type : NotificationType
}.

(** ** The selection store *)

Module Selection.

(** The updater of [handleLocationToggle]:
    [newSet = new Set(prev); has ? delete : add]. *)
Definition toggle (locationName : string) (prev : gset string) : gset string :=
  if decide (locationName ∈ prev)
  then prev ∖ {[ locationName ]}
  else prev ∪ {[ locationName ]}.

(** The select branch of the select-all control:
    [setActiveLocations(new Set(allLocationNames))]. *)
Definition selectAll (allLocationNames : list string) (prev : gset string)
  : gset string :=
  list_to_set allLocationNames.

(** The deselect branch: [setActiveLocations(new Set())], also what a
    scope switch does first. *)
Definition deselectAll (prev : gset string) : gset string := ∅.

(** [currentFeatures.map(d => d.properties.name).filter(name => name)] *)
Definition allLocationNames (features : list GeoFeature) : list string :=
  List.filter JsString.truthy (List.map name features).

(** The [onClick] of the select-all control. *)
Definition selectAllClick (features : list GeoFeature) (active : gset string)
  : gset string :=
  let names := allLocationNames features in
  if (size active =? length names)%nat
  then deselectAll active
  else selectAll names active.

(** The list under the search box. *)
Definition filteredLocations (features : list GeoFeature) (searchQuery : string)
  : list string :=
  JsString.sort
    (List.filter
       (fun name =>
          JsString.includes (JsString.toLowerCase name)
                            (JsString.toLowerCase searchQuery))
       (List.filter JsString.truthy (List.map name features))).

End Selection.

(** ** The rendered map shapes and list rows *)

Module Dom.

Record PathElement : Type := {
  datum : GeoFeature;
  data_name : string;
  country_highlight : bool
}.

Record ListRow : Type := {
  key : string;
  id : string;
  selected : bool;
  checked : bool
}.

Record Document : Type := {
  paths : list PathElement;
  rows : list ListRow
}.

(** The join of [renderMap]: one path per feature, addressed by the
    normalized name, highlighted when the name is selected. *)
Definition renderPaths (features : list GeoFeature) (active : gset string)
  : list PathElement :=
  List.map
    (fun d => {| datum := d;
                 data_name := JsString.normalizedName (name d);
                 country_highlight := bool_decide (name d ∈ active) |})
    features.

(** The rows of the list: one per displayed name. *)
Definition renderRows (names : list string) (active : gset string)
  : list ListRow :=
  List.map
    (fun n => {| key := n;
                 id := "list-" +:+ JsString.normalizedName n;
                 selected := bool_decide (n ∈ active);
                 checked := bool_decide (n ∈ active) |})
    names.

Definition render (features : list GeoFeature) (searchQuery : string)
           (active : gset string) : Document :=
  {| paths := renderPaths features active;
     rows := renderRows (Selection.filteredLocations features searchQuery) active |}.

(** [group.select('path[data-name="..."]')] takes the first match in
    document order; its highlight class is flipped. *)
Fixpoint togglePath (normalized : string) (ps : list PathElement)
  : list PathElement :=
  match ps with
  | [] => []
  | p :: ps' =>
      if String.eqb (data_name p) normalized
      then {| datum := datum p; data_name := data_name p;
              country_highlight := negb (country_highlight p) |} :: ps'
      else p :: togglePath normalized ps'
  end.

(** [d3.select('#list-...')] takes the first element with that id; its
    [selected] class is flipped and its checkbox follows. *)
Fixpoint toggleRow (rowId : string) (rs : list ListRow) : list ListRow :=
  match rs with
  | [] => []
  | r :: rs' =>
      if String.eqb (id r) rowId
      then {| key := key r; id := id r;
              selected := negb (selected r);
              checked := negb (selected r) |} :: rs'
      else r :: toggleRow rowId rs'
  end.

(** The synchronous part of [handleLocationToggle]. *)
Definition handleLocationToggle (locationName : string) (doc : Document)
  : Document :=
  let normalizedName := JsString.normalizedName locationName in
  {| paths := togglePath normalizedName (paths doc);
     rows := toggleRow ("list-" +:+ normalizedName) (rows doc) |}.

(** Highlight state of the path drawn for a feature, if there is one. *)
Definition highlightOf (d : GeoFeature) (doc : Document) : option bool :=
  country_highlight <$>
    List.find (fun p => String.eqb (name (datum p)) (name d)) (paths doc).

(** [selectAll('.country-path').classed('country-highlight', v)]: every
    path gets the class or loses it. *)
Definition highlightAll (v : bool) (ps : list PathElement) : list PathElement :=
  List.map
    (fun p => {| datum := datum p; data_name := data_name p;
                 country_highlight := v |})
    ps.

(** [d3.select('#list-...')] again, with the class and the checkbox set
    to [v] instead of flipped. *)
Fixpoint setRow (rowId : string) (v : bool) (rs : list ListRow) : list ListRow :=
  match rs with
  | [] => []
  | r :: rs' =>
      if String.eqb (id r) rowId
      then {| key := key r; id := id r; selected := v; checked := v |} :: rs'
      else r :: setRow rowId v rs'
  end.

(** [allLocationNames.forEach(name => ...)] of the select-all control. *)
Definition setRows (names : list string) (v : bool) (rs : list ListRow)
  : list ListRow :=
  fold_left
    (fun rs name => setRow ("list-" +:+ JsString.normalizedName name) v rs)
    names rs.

(** The direct DOM update of the select-all control, beside its state
    update. *)
Definition selectAllClick (features : list GeoFeature) (active : gset string)
           (doc : Document) : Document :=
  let allLocationNames := Selection.allLocationNames features in
  if (size active =? length allLocationNames)%nat
  then {| paths := highlightAll false (paths doc);
          rows := setRows allLocationNames false (rows doc) |}
  else {| paths := highlightAll true (paths doc);
          rows := setRows allLocationNames true (rows doc) |}.

(** The [onClick] of a list row: the row is flipped, then
    [handleLocationToggle] runs. *)
Definition rowClick (name : string) (doc : Document) : Document :=
  let normalizedName := JsString.normalizedName name in
  handleLocationToggle name
    {| paths := paths doc;
       rows := toggleRow ("list-" +:+ normalizedName) (rows doc) |}.

End Dom.

(** ** The fit-to-viewport inputs *)

(** The map container as the layout engine reports it; [parentElement] is
    the parent's [clientWidth] and [clientHeight]. *)
Record Container : Type := {
  clientWidth : Z;
  offsetWidth : Z;
  clientHeight : Z;
  offsetHeight : Z;
  parentElement : option (Z * Z)
}.

(** The refs the fit reads: which of them are set. *)
Record Refs : Type := {
  mapContainerRef : option Container;
  svgRef : bool;
  currentProjectionRef : bool;
  pathRef : bool
}.

(** [[[x0, y0], [x1, y1]]] *)
Definition Bounds : Type := (JsNum.num * JsNum.num) * (JsNum.num * JsNum.num).

(** What [path.bounds] returns when no point was projected. *)
Definition emptyBounds : Bounds :=
  ((JsNum.PInf, JsNum.PInf), (JsNum.NInf, JsNum.NInf)).

(** [a || b] on numbers. *)
Definition orElse (a b : Z) : Z := if (a =? 0)%Z then b else a.

(** [updateSvgDimensions], the size it returns (the [viewBox] attribute it
    also sets is not tracked). *)
Definition updateSvgDimensions (refs : Refs) : Z * Z :=
  match mapContainerRef refs with
  | None => (0, 0)%Z
  | Some container =>
      if negb (svgRef refs) then (0, 0)%Z
      else
        let width := orElse (clientWidth container) (offsetWidth container) in
        let height := orElse (clientHeight container) (offsetHeight container) in
        if (width =? 0)%Z || (height =? 0)%Z then
          match parentElement container with
          | Some (parentClientWidth, parentClientHeight) =>
              (parentClientWidth - 48, parentClientHeight - 80)%Z
          | None => (0, 0)%Z
          end
        else (width, height)
  end.

(** [updateSvgDimensionsAndFit] as a function on the value held by
    [initialTransformRef].
    [pathBounds width height features] is what
    [pathRef.current.bounds(featureCollection)] returns once the projection
    has been fitted to [[width, height]]: d3's part. *)
Definition updateSvgDimensionsAndFit
           (pathBounds : Z -> Z -> list GeoFeature -> Bounds)
           (refs : Refs) (currentFeatures : list GeoFeature)
           (initialTransform : Zoom.ZoomTransform) : Zoom.ZoomTransform :=
  if negb (currentProjectionRef refs) || negb (pathRef refs)
     || (length currentFeatures =? 0)%nat
  then initialTransform
  else
    let '(width, height) := updateSvgDimensions refs in
    if (width =? 0)%Z || (height =? 0)%Z then initialTransform
    else
      let '((x0, y0), (x1, y1)) := pathBounds width height currentFeatures in
      if JsNum.strictEq x0 JsNum.PInf || JsNum.strictEq x1 JsNum.NInf
         || JsNum.strictEq y0 JsNum.PInf || JsNum.strictEq y1 JsNum.NInf
      then Zoom.zoomIdentity
      else
        let w := JsNum.ofZ width in
        let h := JsNum.ofZ height in
        let scale :=
          JsNum.min (JsNum.div w (JsNum.sub x1 x0))
                    (JsNum.div h (JsNum.sub y1 y0)) in
        let translateX :=
          JsNum.div (JsNum.sub w (JsNum.mul scale (JsNum.add x0 x1))) JsNum.two in
        let translateY :=
          JsNum.div (JsNum.sub h (JsNum.mul scale (JsNum.add y0 y1))) JsNum.two in
        Zoom.scale (Zoom.translate Zoom.zoomIdentity translateX translateY) scale.

(** ** [src/App.tsx]: two scopes *)

Module App.

Inductive Scope : Type := world | usa.

#[global] Instance Scope_eq_dec : EqDecision Scope.
Proof. solve_decision. Defined.

Record State : Type := mkState {
  currentScope : Scope;
  activeLocations : gset string;
  isLoading : bool;
  searchQuery : string;
  worldCountryFeatures : list GeoFeature;
  usStateFeatures : list GeoFeature;
  initialTransformRef : Zoom.ZoomTransform;
  notificationContainer : list Notification;  (* most recent first *)
  consoleErrors : list string                 (* most recent first *)
}.

Definition setCurrentScope (v : Scope) (st : State) : State :=
  mkState v (activeLocations st) (isLoading st) (searchQuery st)
          (worldCountryFeatures st) (usStateFeatures st)
          (initialTransformRef st) (notificationContainer st) (consoleErrors st).

Definition setActiveLocations (v : gset string) (st : State) : State :=
  mkState (currentScope st) v (isLoading st) (searchQuery st)
          (worldCountryFeatures st) (usStateFeatures st)
          (initialTransformRef st) (notificationContainer st) (consoleErrors st).

Definition setIsLoading (v : bool) (st : State) : State :=
  mkState (currentScope st) (activeLocations st) v (searchQuery st)
          (worldCountryFeatures st) (usStateFeatures st)
          (initialTransformRef st) (notificationContainer st) (consoleErrors st).

Definition setSearchQuery (v : string) (st : State) : State :=
  mkState (currentScope st) (activeLocations st) (isLoading st) v
          (worldCountryFeatures st) (usStateFeatures st)
          (initialTransformRef st) (notificationContainer st) (consoleErrors st).

Definition setWorldCountryFeatures (v : list GeoFeature) (st : State) : State :=
  mkState (currentScope st) (activeLocations st) (isLoading st) (searchQuery st)
          v (usStateFeatures st)
          (initialTransformRef st) (notificationContainer st) (consoleErrors st).

Definition setUsStateFeatures (v : list GeoFeature) (st : State) : State :=
  mkState (currentScope st) (activeLocations st) (isLoading st) (searchQuery st)
          (worldCountryFeatures st) v
          (initialTransformRef st) (notificationContainer st) (consoleErrors st).

Definition setInitialTransformRef (v : Zoom.ZoomTransform) (st : State) : State :=
  mkState (currentScope st) (activeLocations st) (isLoading st) (searchQuery st)
          (worldCountryFeatures st) (usStateFeatures st)
          v (notificationContainer st) (consoleErrors st).

(** [showNotification]: the notification is prepended to the container,
    which is part of the component's own markup (its removal three seconds
    later is not modelled). *)
Definition showNotification (msg : string) (ty : NotificationType) (st : State)
  : State :=
  mkState (currentScope st) (activeLocations st) (isLoading st) (searchQuery st)
          (worldCountryFeatures st) (usStateFeatures st)
          (initialTransformRef st)
          (Notify msg ty :: notificationContainer st) (consoleErrors st).

(** [console.error(label, error)] *)
Definition consoleError (label : string) (st : State) : State :=
  mkState (currentScope st) (activeLocations st) (isLoading st) (searchQuery st)
          (worldCountryFeatures st) (usStateFeatures st)
          (initialTransformRef st) (notificationContainer st)
          (label :: consoleErrors st).

Definition initialState : State :=
  mkState world ∅ true "" [] [] Zoom.zoomIdentity [] [].

(** *** Computed values *)

Definition currentFeatures (st : State) : list GeoFeature :=
  match currentScope st with
  | world => worldCountryFeatures st
  | usa => usStateFeatures st
  end.

Definition locationsCount (st : State) : nat := size (activeLocations st).

Definition totalReference (st : State) : nat :=
  match currentScope st with
  | world => length (worldCountryFeatures st)
  | usa => length (usStateFeatures st)
  end.

Definition percentage (st : State) : option string :=
  if (0 <? totalReference st)%nat
  then F64.toFixed1
         (F64.mul (F64.div (F64.ofNat (locationsCount st))
                           (F64.ofNat (totalReference st)))
                  (F64.ofNat 100))
  else Some "0.0".

Definition filteredLocations (st : State) : list string :=
  Selection.filteredLocations (currentFeatures st) (searchQuery st).

(** *** Outcomes of the asynchronous functions *)

Inductive Outcome : Type :=
| Returned (st : State)
| Threw (err : string) (st : State).

(** Sequencing after an [await]: a rejection skips the rest. *)
Definition andThen (o : Outcome) (rest : State -> Outcome) : Outcome :=
  match o with
  | Returned st => rest st
  | Threw err st => Threw err st
  end.

Definition stateOf (o : Outcome) : State :=
  match o with Returned st | Threw _ st => st end.

Definition returned (o : Outcome) : bool :=
  match o with Returned _ => true | Threw _ _ => false end.

(** *** Loading

    The USA states the loader keeps. *)
Definition usStates : gset string :=
  list_to_set
    [ "Alabama"; "Alaska"; "Arizona"; "Arkansas"; "California"; "Colorado";
      "Connecticut"; "Delaware"; "Florida"; "Georgia"; "Hawaii"; "Idaho";
      "Illinois"; "Indiana"; "Iowa"; "Kansas"; "Kentucky"; "Louisiana";
      "Maine"; "Maryland"; "Massachusetts"; "Michigan"; "Minnesota";
      "Mississippi"; "Missouri"; "Montana"; "Nebraska"; "Nevada";
      "New Hampshire"; "New Jersey"; "New Mexico"; "New York";
      "North Carolina"; "North Dakota"; "Ohio"; "Oklahoma"; "Oregon";
      "Pennsylvania"; "Rhode Island"; "South Carolina"; "South Dakota";
      "Tennessee"; "Texas"; "Utah"; "Vermont"; "Virginia"; "Washington";
      "West Virginia"; "Wisconsin"; "Wyoming" ].

(** The [try] block of [loadWorldData] up to the state update: the
    features to store, or the error thrown. *)
Definition worldFeatures (r : FetchResult (list GeoFeature))
  : string + list GeoFeature :=
  match r with
  | FetchRejected reason => inl reason
  | FetchNoContent => inl "Failed to load world data"
  | FetchResolved features =>
      inr (List.filter
             (fun d => JsString.truthy (name d)
                       && negb (String.eqb (name d) "Antarctica"))
             features)
  end.

(** [loadWorldData]: the [catch] logs and rethrows. *)
Definition loadWorldData (r : FetchResult (list GeoFeature)) (st : State)
  : Outcome :=
  match worldFeatures r with
  | inr features => Returned (setWorldCountryFeatures features st)
  | inl err => Threw err (consoleError "Error loading world map data:" st)
  end.

(** The [try] block of [loadUSAData] up to the state update.
    [feature(topoData, topoData.objects.states)] throws a [TypeError]
    when the key is missing. *)
Definition usaFeatures (r : FetchResult Topology) : string + list GeoFeature :=
  match r with
  | FetchRejected reason => inl reason
  | FetchNoContent => inl "Failed to load USA data"
  | FetchResolved topoData =>
      match objects topoData !! "states" with
      | None => inl "TypeError"
      | Some features =>
          inr (List.filter
                 (fun d => JsString.truthy (name d)
                           && bool_decide (name d ∈ usStates))
                 features)
      end
  end.

(** [loadUSAData] is split at its [await].  Its first line: the request
    is issued only when no states are stored. *)
Definition issuesRequest (st : State) : bool :=
  negb (0 <? length (usStateFeatures st))%nat.

(** The rest of [loadUSAData], run when the response is there: the
    features are stored; the [catch] logs, notifies and stores the empty
    collection.  It reads no state, it only sets it. *)
Definition commitUSAData (r : FetchResult Topology) (st : State) : State :=
  match usaFeatures r with
  | inr filteredFeatures => setUsStateFeatures filteredFeatures st
  | inl err =>
      setUsStateFeatures []
        (showNotification
           "Failed to load US states map data. Check the console." error
           (consoleError "Error loading USA states map data:" st))
  end.

(** [loadUSAData] with nothing happening while it waits: [r] is what the
    request yields. *)
Definition loadUSAData (r : FetchResult Topology) (st : State) : Outcome :=
  if issuesRequest st then Returned (commitUSAData r st) else Returned st.

(** The [initialize] of the mount effect: the world request, with its
    [catch] and [finally]. *)
Definition initialize (r : FetchResult (list GeoFeature)) (st : State)
  : Outcome :=
  match loadWorldData r (setIsLoading true st) with
  | Returned st' => Returned (setIsLoading false st')
  | Threw err st' =>
      Returned (setIsLoading false (consoleError "Initialization failed:" st'))
  end.

(** *** Handlers *)

(** The state update of [handleLocationToggle]. *)
Definition handleLocationToggle (locationName : string) (st : State) : State :=
  setActiveLocations
    (Selection.toggle locationName (activeLocations st)) st.

(** The state update of the select-all control. *)
Definition selectAllClick (st : State) : State :=
  setActiveLocations
    (Selection.selectAllClick (currentFeatures st) (activeLocations st)) st.

(** [handleScopeSelection] is split at [await loadUSAData()].  Up to
    the [await]: the store is emptied and, for the USA, the loading flag
    raised. *)
Definition beginScopeSelection (scope : Scope) (st : State) : State :=
  let st := setActiveLocations ∅ st in
  match scope with
  | usa => setIsLoading true st
  | world => st
  end.

(** After the [await]: the loading flag is lowered for the USA, and the
    scope is set. *)
Definition finishScopeSelection (scope : Scope) (st : State) : State :=
  setCurrentScope scope
    (match scope with
     | usa => setIsLoading false st
     | world => st
     end).

(** [handleScopeSelection] with nothing happening while it waits for the
    request, which yields [r] if it is issued.  What happens when the
    user goes on clicking in the meantime is in [step] below. *)
Definition handleScopeSelection (scope : Scope) (r : FetchResult Topology)
           (st : State) : Outcome :=
  if decide (scope = currentScope st) then Returned st
  else
    let st := beginScopeSelection scope st in
    andThen
      (match scope with
       | usa => loadUSAData r st
       | world => Returned st
       end)
      (fun st => Returned (finishScopeSelection scope st)).

(** The fit as [resetView] and the resize handler run it. *)
Definition fit (pathBounds : Z -> Z -> list GeoFeature -> Bounds)
           (refs : Refs) (st : State) : State :=
  setInitialTransformRef
    (updateSvgDimensionsAndFit pathBounds refs (currentFeatures st)
                               (initialTransformRef st))
    st.

(** *** The operations a user can issue, each run to completion

    The select-all control is the only entry to its two branches. *)

Inductive Op : Type :=
| Toggle (locationName : string)
| SelectAllClick
| SwitchScope (scope : Scope) (r : FetchResult Topology).

Definition applyOp (op : Op) (st : State) : State :=
  match op with
  | Toggle locationName => handleLocationToggle locationName st
  | SelectAllClick => selectAllClick st
  | SwitchScope scope r => stateOf (handleScopeSelection scope r st)
  end.

Definition run (ops : list Op) (st : State) : State :=
  fold_left (fun st op => applyOp op st) ops st.

(** The state once the component is mounted and the world request has
    settled. *)
Definition mounted (r : FetchResult (list GeoFeature)) : State :=
  stateOf (initialize r initialState).

(** Every selected name is the name of a region of the active scope. *)
Definition selectionWithinScope (st : State) : Prop :=
  ∀ n, n ∈ activeLocations st → n ∈ List.map name (currentFeatures st).

(** The name an operation toggles is that of a region of the active scope. *)
Definition toggleWithinScope (st : State) (op : Op) : Prop :=
  match op with
  | Toggle locationName => locationName ∈ List.map name (currentFeatures st)
  | _ => True
  end.

Fixpoint togglesWithinScope (st : State) (ops : list Op) : Prop :=
  match ops with
  | [] => True
  | op :: ops' => toggleWithinScope st op ∧ togglesWithinScope (applyOp op st) ops'
  end.

(** *** The component between events

    The loading overlay lets clicks through and the list is beside it, so
    the user can go on while a USA request is pending.  [inFlight] counts
    the USA requests not yet answered: the scope control shows
    [currentScope], which is still the world while the first request is
    pending, so the USA can be chosen again and a second request issued. *)
Record Session : Type := mkSession {
  state : State;
  inFlight : nat
}.

Inductive Event : Type :=
| SelectScope (scope : Scope)
| UsaResponseArrives (r : FetchResult Topology)
| ToggleLocation (locationName : string)
| ClickSelectAll.

(** [handleScopeSelection] up to the point where it waits, or to its end
    when it has nothing to wait for. *)
Definition selectScope (scope : Scope) (ses : Session) : Session :=
  if decide (scope = currentScope (state ses)) then ses
  else
    let st := beginScopeSelection scope (state ses) in
    match scope with
    | usa =>
        if issuesRequest st
        then mkSession st (S (inFlight ses))
        else mkSession (finishScopeSelection usa st) (inFlight ses)
    | world => mkSession (finishScopeSelection world st) (inFlight ses)
    end.

(** The rest of [loadUSAData] and of [handleScopeSelection] once the
    response is there. *)
Definition responseArrives (r : FetchResult Topology) (st : State) : State :=
  finishScopeSelection usa (commitUSAData r st).

(** A response can only arrive for a request that is pending. *)
Definition step (ev : Event) (ses : Session) : Session :=
  match ev with
  | SelectScope scope => selectScope scope ses
  | UsaResponseArrives r =>
      match inFlight ses with
      | O => ses
      | S n => mkSession (responseArrives r (state ses)) n
      end
  | ToggleLocation locationName =>
      mkSession (handleLocationToggle locationName (state ses)) (inFlight ses)
  | ClickSelectAll => mkSession (selectAllClick (state ses)) (inFlight ses)
  end.

Definition runEvents (events : list Event) (ses : Session) : Session :=
  fold_left (fun ses ev => step ev ses) events ses.

(** The session once the component is mounted. *)
Definition mountedSession (r : FetchResult (list GeoFeature)) : Session :=
  mkSession (mounted r) 0.

End App.

(** ** The four-scope revision: world, usa, europe, china

    The scope switch is modelled in its two halves, before and after the
    [await], so that requests can overlap. *)

Module App4.

Inductive Scope : Type := world | usa | europe | china.

#[global] Instance Scope_eq_dec : EqDecision Scope.
Proof. solve_decision. Defined.

Record State : Type := mkState {
  currentScope : Scope;
  activeLocations : gset string;
  isLoading : bool;
  worldCountryFeatures : list GeoFeature;
  usStateFeatures : list GeoFeature;
  europeCountryFeatures : list GeoFeature;
  chinaProvinceFeatures : list GeoFeature;
  notificationContainer : list Notification;
  consoleErrors : list string
}.

Definition setCurrentScope (v : Scope) (st : State) : State :=
  mkState v (activeLocations st) (isLoading st)
          (worldCountryFeatures st) (usStateFeatures st)
          (europeCountryFeatures st) (chinaProvinceFeatures st)
          (notificationContainer st) (consoleErrors st).

Definition setActiveLocations (v : gset string) (st : State) : State :=
  mkState (currentScope st) v (isLoading st)
          (worldCountryFeatures st) (usStateFeatures st)
          (europeCountryFeatures st) (chinaProvinceFeatures st)
          (notificationContainer st) (consoleErrors st).

Definition setIsLoading (v : bool) (st : State) : State :=
  mkState (currentScope st) (activeLocations st) v
          (worldCountryFeatures st) (usStateFeatures st)
          (europeCountryFeatures st) (chinaProvinceFeatures st)
          (notificationContainer st) (consoleErrors st).

Definition setUsStateFeatures (v : list GeoFeature) (st : State) : State :=
  mkState (currentScope st) (activeLocations st) (isLoading st)
          (worldCountryFeatures st) v
          (europeCountryFeatures st) (chinaProvinceFeatures st)
          (notificationContainer st) (consoleErrors st).

Definition setEuropeCountryFeatures (v : list GeoFeature) (st : State) : State :=
  mkState (currentScope st) (activeLocations st) (isLoading st)
          (worldCountryFeatures st) (usStateFeatures st)
          v (chinaProvinceFeatures st)
          (notificationContainer st) (consoleErrors st).

Definition setChinaProvinceFeatures (v : list GeoFeature) (st : State) : State :=
  mkState (currentScope st) (activeLocations st) (isLoading st)
          (worldCountryFeatures st) (usStateFeatures st)
          (europeCountryFeatures st) v
          (notificationContainer st) (consoleErrors st).

(** [console.error] followed by [showNotification(msg, 'error')], as
    every [catch] of the scope loaders does. *)
Definition reportFailure (label msg : string) (st : State) : State :=
  mkState (currentScope st) (activeLocations st) (isLoading st)
          (worldCountryFeatures st) (usStateFeatures st)
          (europeCountryFeatures st) (chinaProvinceFeatures st)
          (Notify msg error :: notificationContainer st)
          (label :: consoleErrors st).

(** *** Computed values *)

Definition currentFeatures (st : State) : list GeoFeature :=
  match currentScope st with
  | world => worldCountryFeatures st
  | usa => usStateFeatures st
  | europe => europeCountryFeatures st
  | china => chinaProvinceFeatures st
  end.

Definition locationsCount (st : State) : nat := size (activeLocations st).

(** [currentScope === 'world' ? worldCountryFeatures.length
                              : usStateFeatures.length] *)
Definition totalReference (st : State) : nat :=
  match currentScope st with
  | world => length (worldCountryFeatures st)
  | _ => length (usStateFeatures st)
  end.

Definition percentage (st : State) : option string :=
  if (0 <? totalReference st)%nat
  then F64.toFixed1
         (F64.mul (F64.div (F64.ofNat (locationsCount st))
                           (F64.ofNat (totalReference st)))
                  (F64.ofNat 100))
  else Some "0.0".

(** *** Loaders *)

(** The two name repairs of the Europe loader's [map]. *)
Definition europeName (d : GeoFeature) : string :=
  let name1 :=
    if negb (JsString.truthy (name d)) && JsString.truthy (NAME d)
    then NAME d else name d in
  if negb (JsString.truthy name1)
  then (if JsString.truthy (NAME d) then NAME d else "Unknown")
  else name1.

Definition hasGeometry (d : GeoFeature) : bool :=
  match geometry d with Some _ => true | None => false end.

(** The [try] block of [loadEuropeData] up to the state update. *)
Definition europeFeatures (r : FetchResult Topology) : string + list GeoFeature :=
  match r with
  | FetchRejected reason => inl reason
  | FetchNoContent => inl "Failed to load Europe TopoJSON data"
  | FetchResolved topoData =>
      match objects topoData !! "europe" with
      | None => inl "Europe object not found in TopoJSON"
      | Some features =>
          inr (List.map
                 (fun d => Feature (europeName d) (NAME d) (geometry d))
                 (List.filter hasGeometry features))
      end
  end.

(** The [try] block of [loadChinaData] up to the state update. *)
Definition chinaFeatures (r : FetchResult (list GeoFeature))
  : string + list GeoFeature :=
  match r with
  | FetchRejected reason => inl reason
  | FetchNoContent => inl "Failed to load China provinces data"
  | FetchResolved features =>
      inr (List.filter
             (fun d =>
                JsString.truthy (name d)
                && match geometry d with
                   | None | Some GeometryCollection => false
                   | Some _ => true
                   end)
             features)
  end.

(** A settled request, tagged with the loader that issued it. *)
Inductive Response : Type :=
| UsaResponse (r : FetchResult Topology)
| EuropeResponse (r : FetchResult Topology)
| ChinaResponse (r : FetchResult (list GeoFeature)).

Definition scopeOf (resp : Response) : Scope :=
  match resp with
  | UsaResponse _ => usa
  | EuropeResponse _ => europe
  | ChinaResponse _ => china
  end.

(** What the loader stores for a response: the processed features, or
    the empty collection after reporting the failure. *)
Definition processed (resp : Response) : string + list GeoFeature :=
  match resp with
  | UsaResponse r => App.usaFeatures r
  | EuropeResponse r => europeFeatures r
  | ChinaResponse r => chinaFeatures r
  end.

(** The part of a loader after its [await d3.json(...)]. *)
Definition commit (resp : Response) (st : State) : State :=
  match resp with
  | UsaResponse r =>
      match App.usaFeatures r with
      | inr filteredFeatures => setUsStateFeatures filteredFeatures st
      | inl _ =>
          setUsStateFeatures []
            (reportFailure "Error loading USA states map data:"
               "Failed to load US states map data. Check the console." st)
      end
  | EuropeResponse r =>
      match europeFeatures r with
      | inr features => setEuropeCountryFeatures features st
      | inl _ =>
          setEuropeCountryFeatures []
            (reportFailure "Error loading Europe map data:"
               "Failed to load Europe map data. Check the console." st)
      end
  | ChinaResponse r =>
      match chinaFeatures r with
      | inr features => setChinaProvinceFeatures features st
      | inl _ =>
          setChinaProvinceFeatures []
            (reportFailure "Error loading China provinces map data:"
               "Failed to load China provinces map data. Check the console." st)
      end
  end.

(** [loadEuropeData] and [loadChinaData] are memoised on
    [showNotification] alone, so the collection their first line tests
    is the one captured at mount, the empty array: they always issue
    the request.  [loadUSAData] is memoised on [usStateFeatures.length]
    and sees the current collection. *)
Definition collectionAtMount : list GeoFeature := [].

Definition issuesRequest (scope : Scope) (st : State) : bool :=
  match scope with
  | world => false
  | usa => negb (0 <? length (usStateFeatures st))%nat
  | europe | china => negb (0 <? length collectionAtMount)%nat
  end.

(** The end of [handleScopeSelection], after the loader has returned. *)
Definition finishScopeSelection (scope : Scope) (st : State) : State :=
  setCurrentScope scope (setIsLoading false st).

(** *** The component between events *)

(** [requested] is the scope the user chose last; the component keeps no
    such record.  [inFlight] lists the scope switches waiting for their
    data. *)
Record Session : Type := mkSession {
  state : State;
  inFlight : list Scope;
  requested : Scope
}.

Inductive Event : Type :=
| SelectScope (scope : Scope)
| ResponseArrives (resp : Response)
| ToggleLocation (locationName : string).

(** [handleScopeSelection] up to the loader's [await]. *)
Definition selectScope (scope : Scope) (ses : Session) : Session :=
  let st := state ses in
  if decide (scope = currentScope st) then ses
  else
    let st := setIsLoading true (setActiveLocations ∅ st) in
    if issuesRequest scope st
    then mkSession st (inFlight ses ++ [scope]) scope
    else mkSession (finishScopeSelection scope st) (inFlight ses) scope.

(** The rest of the loader and of [handleScopeSelection] once the
    response is there. *)
Definition responseArrives (resp : Response) (st : State) : State :=
  finishScopeSelection (scopeOf resp) (commit resp st).

Fixpoint removeFirst (scope : Scope) (l : list Scope) : list Scope :=
  match l with
  | [] => []
  | s :: l' => if decide (s = scope) then l' else s :: removeFirst scope l'
  end.

Definition step (ev : Event) (ses : Session) : Session :=
  match ev with
  | SelectScope scope => selectScope scope ses
  | ResponseArrives resp =>
      if bool_decide (scopeOf resp ∈ inFlight ses)
      then mkSession (responseArrives resp (state ses))
                     (removeFirst (scopeOf resp) (inFlight ses))
                     (requested ses)
      else ses
  | ToggleLocation locationName =>
      mkSession
        (setActiveLocations
           (Selection.toggle locationName (activeLocations (state ses)))
           (state ses))
        (inFlight ses) (requested ses)
  end.

Definition runEvents (events : list Event) (ses : Session) : Session :=
  fold_left (fun ses ev => step ev ses) events ses.

(** The session once the world collection is loaded. *)
Definition mounted (worldFeatures : list GeoFeature) : Session :=
  mkSession (mkState world ∅ false worldFeatures [] [] [] [] []) [] world.

(** A response for a scope other than the one chosen last is not made
    the active collection. *)
Definition staleResponsesDiscarded : Prop :=
  ∀ (ses : Session) (resp : Response),
    scopeOf resp ∈ inFlight ses →
    scopeOf resp ≠ requested ses →
    currentScope (state (step (ResponseArrives resp) ses)) ≠ scopeOf resp.

End App4.

(** ** The six-scope revision: the total behind the percentage *)

Module App6.

Inductive Scope : Type := world | usa | usaParks | europe | china | india.

Record State : Type := mkState {
  currentScope : Scope;
  activeLocations : gset string;
  worldCountryFeatures : list GeoFeature;
  usStateFeatures : list GeoFeature;
  usNationalParkFeatures : list GeoFeature;
  europeCountryFeatures : list GeoFeature;
  chinaProvinceFeatures : list GeoFeature;
  indiaStateFeatures : list GeoFeature
}.

Definition currentFeatures (st : State) : list GeoFeature :=
  match currentScope st with
  | world => worldCountryFeatures st
  | usa => usStateFeatures st
  | usaParks => usStateFeatures st
  | europe => europeCountryFeatures st
  | china => chinaProvinceFeatures st
  | india => indiaStateFeatures st
  end.

Definition selectableFeatures (st : State) : list GeoFeature :=
  match currentScope st with
  | usaParks => usNationalParkFeatures st
  | _ => currentFeatures st
  end.

Definition locationsCount (st : State) : nat := size (activeLocations st).

Definition totalReference (st : State) : nat :=
  match currentScope st with
  | world => length (worldCountryFeatures st)
  | usa => length (usStateFeatures st)
  | usaParks => length (usNationalParkFeatures st)
  | europe => length (europeCountryFeatures st)
  | china => length (chinaProvinceFeatures st)
  | india => length (indiaStateFeatures st)
  end.

Definition percentage (st : State) : option string :=
  if (0 <? totalReference st)%nat
  then F64.toFixed1
         (F64.mul (F64.div (F64.ofNat (locationsCount st))
                           (F64.ofNat (totalReference st)))
                  (F64.ofNat 100))
  else Some "0.0".

End App6.

(** ** The component and its document together *)

Module Ui.

(** The drawing done by the effect on [currentScope] and
    [currentFeatures.length] (the refs are set once the component is
    mounted): with a non-empty active collection the old paths are removed
    and one path per feature is drawn; otherwise nothing is touched. *)
Definition drawScope (st : App.State) (doc : Dom.Document) : Dom.Document :=
  if (0 <? length (App.currentFeatures st))%nat
  then {| Dom.paths :=
            Dom.renderPaths (App.currentFeatures st) (App.activeLocations st);
          Dom.rows := Dom.rows doc |}
  else doc.

(** The state update behind the [click] handler of a path. *)
Definition pathClick (p : Dom.PathElement) (st : App.State) : App.State :=
  if JsString.truthy (name (Dom.datum p))
  then App.handleLocationToggle (name (Dom.datum p)) st
  else st.

(** The features [renderLabels] hands to the label join. *)
Definition selectedFeatures (st : App.State) : list GeoFeature :=
  List.filter (fun d => bool_decide (name d ∈ App.activeLocations st))
              (App.currentFeatures st).

(** Whether the select-all control is drawn as active and titled
    "Deselect all locations". *)
Definition selectAllHighlighted (st : App.State) : bool :=
  (size (App.activeLocations st)
   =? length (List.filter (fun d => JsString.truthy (name d))
                          (App.currentFeatures st)))%nat
  && (0 <? size (App.activeLocations st))%nat.

End Ui.

(** ** The crop of the exported image *)

Module PngExport.

(** [getBBox()] of the map group. *)
Record BBox : Type := { x : Qc; y : Qc; width : Qc; height : Qc }.

(** The crop written into the cloned SVG, and the size the canvas ends
    up with. *)
Record Crop : Type := {
  cropX : Qc;
  cropY : Qc;
  cropWidth : Qc;
  cropHeight : Qc;
  canvasWidth : Z;
  canvasHeight : Z
}.

(** [Math.max] on finite numbers. *)
Definition max (a b : Qc) : Qc := if Qclt_le_dec a b then b else a.

(** The conversion of a finite number to [unsigned long]: the fraction is
    dropped, the rest taken modulo [2^32]. *)
Definition toUnsignedLong (q : Qc) : Z :=
  (Z.quot (Qnum q) (Zpos (Qden q))) mod 2 ^ 32.

(** An assignment to [canvas.width] or [canvas.height]: the attribute is
    an [unsigned long] that reflects the content attribute, which takes
    values up to [2^31 - 1] and falls back to its default otherwise. *)
Definition setCanvasSize (default : Z) (q : Qc) : Z :=
  let n := toUnsignedLong q in
  if (n <=? 2147483647)%Z then n else default.

Inductive Plan : Type :=
| Skipped                    (* a ref is missing: silent return *)
| Refused (msg : string)     (* error notification, nothing exported *)
| Draw (crop : Crop).

(** [saveMapAsPNG] up to the creation of the canvas: the crop rectangle
    written into the [viewBox] of the cloned SVG on exact rationals
    ([0.02] is [1/50]), and the size of the canvas. *)
Definition saveMapAsPNG (refs : Refs) (mapGroup : bool) (mapBounds : BBox)
  : Plan :=
  match mapContainerRef refs with
  | None => Skipped
  | Some container =>
      if negb (svgRef refs) || negb mapGroup then Skipped
      else
        let padding := (max (width mapBounds) (height mapBounds)
                        * Q2Qc (2 # 100))%Qc in
        let cropX := max 0%Qc (x mapBounds - padding)%Qc in
        let cropY := max 0%Qc (y mapBounds - padding)%Qc in
        let cropWidth := (width mapBounds + padding * Q2Qc 2)%Qc in
        let cropHeight := (height mapBounds + padding * Q2Qc 2)%Qc in
        let containerWidth :=
          orElse (clientWidth container) (offsetWidth container) in
        let containerHeight :=
          orElse (clientHeight container) (offsetHeight container) in
        if (containerWidth =? 0)%Z || (containerHeight =? 0)%Z
           || bool_decide (cropWidth = 0%Qc) || bool_decide (cropHeight = 0%Qc)
        then Refused
               "Map container has no dimensions. Please wait for the map to load."
        else
          let scale := Q2Qc 3 in
          Draw {| cropX := cropX; cropY := cropY;
                  cropWidth := cropWidth; cropHeight := cropHeight;
                  canvasWidth := setCanvasSize 300 (cropWidth * scale)%Qc;
                  canvasHeight := setCanvasSize 150 (cropHeight * scale)%Qc |}
  end.

End PngExport.

(** ** The percentage as the specification words it

    [round(selectionCount / totalRegionsInScope * 100, 1 decimal)], and
    ["0.0"] when [totalRegionsInScope] is zero; the arithmetic is that of
    the language, on doubles. *)
Definition displayedPercentage (selectionCount totalRegionsInScope : nat)
  : option string :=
  if (totalRegionsInScope =? 0)%nat then Some "0.0"
  else F64.toFixed1
         (F64.mul (F64.div (F64.ofNat selectionCount)
                           (F64.ofNat totalRegionsInScope))
                  (F64.ofNat 100)).

(** ** Predicates used in the statements *)

(** Every region of a collection has a name. *)
Definition named (features : list GeoFeature) : Prop :=
  Forall (λ d, name d ≠ "") features.

(** *** Statements of the specification, for comparison with the code *)



(** The place of a code unit in the alphabet when the case of letters
    does not count: a capital letter (A-Z, and U+00C0 to U+00DE without
    the multiplication sign) stands where its small letter stands, 32
    further on. *)
Definition isCapital (c : ascii) : bool :=
  let n := N_of_ascii c in
  (((65 <=? n) && (n <=? 90))
   || ((192 <=? n) && (n <=? 222) && negb (n =? 215)))%N.

Definition rank (c : ascii) : N :=
  if isCapital c then (N_of_ascii c + 32)%N else N_of_ascii c.

(** [q] is the beginning of [s], the case of letters not counting. *)
Fixpoint beginsIgnoringCase (s q : string) : bool :=
  match q, s with
  | EmptyString, _ => true
  | String _ _, EmptyString => false
  | String d q', String c s' => (rank c =? rank d)%N && beginsIgnoringCase s' q'
  end.

(** [s] contains [q] as a case-insensitive substring. *)
Fixpoint containsIgnoringCase (s q : string) : bool :=
  beginsIgnoringCase s q
  || match s with
     | EmptyString => false
     | String _ s' => containsIgnoringCase s' q
     end.

(** Alphabetical order, as in a dictionary: by the first letter in which
    the two strings differ, capitals and small letters alike. *)
Fixpoint alphabetical (a b : string) : bool :=
  match a, b with
  | EmptyString, _ => true
  | String _ _, EmptyString => false
  | String c a', String d b' =>
      (rank c <? rank d)%N || ((rank c =? rank d)%N && alphabetical a' b')
  end.

(** The list under the search box as specified: the names that contain
    the query case-insensitively, in alphabetical order. *)
Definition listAsSpecified (features : list GeoFeature) (q : string) : Prop :=
  let shown := Selection.filteredLocations features q in
  (∀ n, n ∈ shown
        ↔ n ∈ List.map name features ∧ containsIgnoringCase n q = true)
  ∧ StronglySorted (λ a b, alphabetical a b = true) shown.

(** The scope switch as specified: whenever an event makes another scope
    the active one, the selection store is empty afterwards. *)
Definition switchAsSpecified : Prop :=
  ∀ (r : FetchResult (list GeoFeature)) (events : list App.Event)
    (ev : App.Event),
    let ses := App.runEvents events (App.mountedSession r) in
    App.currentScope (App.state (App.step ev ses))
    ≠ App.currentScope (App.state ses) →
    App.activeLocations (App.state (App.step ev ses)) = ∅.

(** Select-all as specified: whatever the store held, it then holds
    exactly the names of the active collection, so that doing it again
    changes nothing. *)
Definition selectAllAsSpecified : Prop :=
  ∀ (st : App.State) (n : string),
    n ∈ App.activeLocations (App.selectAllClick st)
    ↔ n ∈ Selection.allLocationNames (App.currentFeatures st).

(** A failed load as specified: a notification, the USA collection empty,
    no error out of the handler, and the scope that was active before
    still the active one. *)
Definition loadFailureAsSpecified (st : App.State) (r : FetchResult Topology)
  : Prop :=
  let o := App.handleScopeSelection App.usa r st in
  App.returned o = true
  ∧ (∃ msg, Notify msg error ∈ App.notificationContainer (App.stateOf o))
  ∧ App.usStateFeatures (App.stateOf o) = []
  ∧ App.currentScope (App.stateOf o) = App.currentScope st.

(** ** Sample data *)

Definition france : GeoFeature := Feature "France" "FRANCE" (Some MultiPolygon).
Definition spain : GeoFeature := Feature "Spain" "SPAIN" (Some MultiPolygon).
Definition texas : GeoFeature := Feature "Texas" "" (Some Polygon).
Definition ohio : GeoFeature := Feature "Ohio" "" (Some Polygon).
Definition hubei : GeoFeature := Feature "Hubei" "" (Some Polygon).

Definition worldDocument : FetchResult (list GeoFeature) :=
  FetchResolved [france; spain; Feature "Antarctica" "" (Some Polygon)].

Definition usaDocument : FetchResult Topology :=
  FetchResolved {| objects := {[ "states" := [texas; ohio] ]} |}.

Definition europeDocument : FetchResult Topology :=
  FetchResolved {| objects := {[ "europe" := [france; spain] ]} |}.

Definition chinaDocument : FetchResult (list GeoFeature) :=
  FetchResolved [hubei].

Definition networkError : FetchResult Topology :=
  FetchRejected "TypeError: Failed to fetch".

(** A mounted map container of the given size. *)
Definition viewport (w h : Z) : Refs :=
  {| mapContainerRef :=
       Some {| clientWidth := w; offsetWidth := w;
               clientHeight := h; offsetHeight := h;
               parentElement := None |};
     svgRef := true;
     currentProjectionRef := true;
     pathRef := true |}.

(** A stand-in for d3 in the examples: the drawn regions stay one pixel
    inside the viewport, and nothing drawn gives the empty bounds. *)
Definition insetBounds (w h : Z) (features : list GeoFeature) : Bounds :=
  match features with
  | [] => emptyBounds
  | _ => ((JsNum.ofZ 1, JsNum.ofZ 1), (JsNum.ofZ (w - 1), JsNum.ofZ (h - 1)))
  end.

(** Europe is chosen on the mounted world map, its two countries arrive,
    and France is selected; the USA states were never requested. *)
Definition europeOneOfTwo : App4.State :=
  App4.state
    (App4.runEvents
       [App4.SelectScope App4.europe;
        App4.ResponseArrives (App4.EuropeResponse europeDocument);
        App4.ToggleLocation "France"]
       (App4.mounted [france; spain])).

(** Europe is chosen, then China before Europe's data is there; China's
    data arrives first. *)
Definition chinaOvertakesEurope : App4.Session :=
  App4.runEvents
    [App4.SelectScope App4.europe;
     App4.SelectScope App4.china;
     App4.ResponseArrives (App4.ChinaResponse chinaDocument)]
    (App4.mounted [france; spain]).


(** A session on the map and the list. *)
Definition sampleSession : list App.Op :=
  [App.Toggle "France"; App.SelectAllClick; App.SwitchScope App.usa usaDocument;
   App.Toggle "Texas"; App.SelectAllClick; App.SelectAllClick;
   App.Toggle "Ohio";
   App.SwitchScope App.world usaDocument; App.Toggle "Spain"].

(** Two regions whose names differ in the case of the first letter. *)
Definition albania : GeoFeature := Feature "albania" "" (Some Polygon).
Definition zimbabwe : GeoFeature := Feature "Zimbabwe" "" (Some Polygon).

(** The USA is chosen on the mounted world map and France is clicked
    before the states are there. *)
Definition franceClickedWhileLoading : App.Session :=
  App.runEvents [App.SelectScope App.usa; App.ToggleLocation "France"]
                (App.mountedSession worldDocument).

(** The world map with both of its countries selected. *)
Definition allSelected : App.State :=
  App.selectAllClick (App.mounted worldDocument).


(** The USA map, shown after its states were loaded on the world map. *)
Definition usaShown : App.State :=
  App.stateOf (App.handleScopeSelection App.usa usaDocument
                                        (App.mounted worldDocument)).

(** The world map with France selected. *)
Definition franceSelected : App.State :=
  App.handleLocationToggle "France" (App.mounted worldDocument).

(** What is drawn for it: the paths and the list. *)
Definition franceSelectedDocument : Dom.Document :=
  Dom.render [france; spain] "" {[ "France" ]}.

(** The path drawn for France while it is selected. *)
Definition francePath : Dom.PathElement :=
  {| Dom.datum := france; Dom.data_name := "France";
     Dom.country_highlight := true |}.

(** The bounding box of a drawn map, and that of an empty group. *)
Definition mapBBox : PngExport.BBox :=
  {| PngExport.x := Q2Qc 1; PngExport.y := Q2Qc 30;
     PngExport.width := Q2Qc 12; PngExport.height := Q2Qc (625 # 100) |}.

Definition emptyBBox : PngExport.BBox :=
  {| PngExport.x := 0%Qc; PngExport.y := 0%Qc;
     PngExport.width := 0%Qc; PngExport.height := 0%Qc |}.

(** Stand-ins for d3: everything projected onto one point, and onto a
    square of side ten. *)
Definition pointBounds (w h : Z) (features : list GeoFeature) : Bounds :=
  ((JsNum.ofZ 5, JsNum.ofZ 5), (JsNum.ofZ 5, JsNum.ofZ 5)).

Definition squareBounds (w h : Z) (features : list GeoFeature) : Bounds :=
  ((JsNum.ofZ 0, JsNum.ofZ 0), (JsNum.ofZ 10, JsNum.ofZ 10)).

(** A container that has no size yet, in a parent 40 pixels wide. *)
Definition collapsedContainer : Container :=
  {| clientWidth := 0; offsetWidth := 0;
     clientHeight := 0; offsetHeight := 0;
     parentElement := Some (40, 200)%Z |}.

Definition collapsed : Refs :=
  {| mapContainerRef := Some collapsedContainer;
     svgRef := true;
     currentProjectionRef := true;
     pathRef := true |}.

(** * Properties *)

(** ** Strings *)

Lemma prefix_app (q s : string) :
  String.prefix q s = true ↔ ∃ b, s = q +:+ b.
Proof.
  revert s. induction q as [|c q IH]; intros s.
  - split; [intros _; exists s; reflexivity | intros _; destruct s; reflexivity].
  - destruct s as [|c' s].
    + split; [discriminate | intros [b Hb]; discriminate].
    + cbn [String.prefix]. destruct (ascii_dec c c') as [->|Hne].
      * rewrite IH. split; intros [b Hb]; exists b.
        -- cbn. by rewrite Hb.
        -- by injection Hb.
      * split; [discriminate | intros [b Hb]; injection Hb; congruence].
Qed.

(** [includes] is the substring test. *)
Lemma includes_substring (s q : string) :
  JsString.includes s q = true ↔ ∃ a b, s = a +:+ q +:+ b.
Proof.
  induction s as [|c s IH]; cbn [JsString.includes].
  - rewrite orb_false_r, prefix_app. split.
    + intros [b Hb]. by exists "", b.
    + intros ([|c a] & b & Hab); [by exists b | discriminate].
  - rewrite orb_true_iff, prefix_app, IH. split.
    + intros [[b Hb] | (a & b & Hab)].
      * by exists "", b.
      * exists (String c a), b. cbn. by rewrite Hab.
    + intros ([|c' a] & b & Hab).
      * left. by exists b.
      * right. exists a, b. by injection Hab.
Qed.

Lemma includes_empty (s : string) : JsString.includes s "" = true.
Proof. apply includes_substring. by exists "", s. Qed.

Lemma truthy_nonempty (s : string) : JsString.truthy s = true ↔ s ≠ "".
Proof. destruct s; cbn; split; congruence. Qed.

Lemma filter_all {A} (f : A → bool) (l : list A) :
  Forall (λ a, f a = true) l → List.filter f l = l.
Proof. induction 1 as [|a l Ha _ IH]; cbn; [done | by rewrite Ha, IH]. Qed.

Example normalizedName_examples :
  JsString.normalizedName "New York" = "New-York"
  ∧ JsString.normalizedName "Cote d'Ivoire" = "Cote-dIvoire"
  ∧ JsString.normalizedName "U.S. Virgin Islands" = "US-Virgin-Islands".
Proof. split_and!; reflexivity. Qed.

Example toLowerCase_examples :
  JsString.toLowerCase "New York" = "new york"
  ∧ JsString.includes (JsString.toLowerCase "New York") (JsString.toLowerCase "W Y") = true
  ∧ JsString.includes (JsString.toLowerCase "New York") (JsString.toLowerCase "wy") = false.
Proof. split_and!; reflexivity. Qed.

(** ** The selection store *)

Lemma toggle_elem_of (n m : string) (S : gset string) :
  m ∈ Selection.toggle n S ↔ (m ≠ n ∧ m ∈ S) ∨ (m = n ∧ n ∉ S).
Proof.
  unfold Selection.toggle. case_decide; [|destruct (decide (m = n))]; set_solver.
Qed.

Lemma toggle_involutive (n : string) (S : gset string) :
  Selection.toggle n (Selection.toggle n S) = S.
Proof.
  apply set_eq. intros m. rewrite !toggle_elem_of.
  destruct (decide (m = n)) as [->|]; [destruct (decide (n ∈ S))|]; naive_solver.
Qed.

(** C7.  Toggling a name flips its membership and leaves every other name
    alone, and toggling the same name twice gives back the state the
    component started from. *)
Theorem toggle_twice_restores (st : App.State) (n : string) :
  (n ∈ App.activeLocations (App.handleLocationToggle n st)
   ↔ n ∉ App.activeLocations st)
  ∧ (∀ m, m ≠ n →
       (m ∈ App.activeLocations (App.handleLocationToggle n st)
        ↔ m ∈ App.activeLocations st))
  ∧ App.handleLocationToggle n (App.handleLocationToggle n st) = st.
Proof.
  split_and!.
  - cbn. rewrite toggle_elem_of. naive_solver.
  - intros m Hm. cbn. rewrite toggle_elem_of. naive_solver.
  - unfold App.handleLocationToggle. cbn.
    rewrite toggle_involutive. by destruct st.
Qed.

(** Two toggles of France on the freshly mounted world map. *)
Lemma toggle_twice_restores_witness :
  let st := App.mounted worldDocument in
  "Spain" ≠ "France"
  ∧ ("Spain" ∈ App.activeLocations (App.handleLocationToggle "France" st)
     ↔ "Spain" ∈ App.activeLocations st)
  ∧ App.handleLocationToggle "France" (App.handleLocationToggle "France" st) = st.
Proof.
  destruct (toggle_twice_restores (App.mounted worldDocument) "France")
    as (_ & H2 & H3).
  split; [discriminate|]. split; [apply H2; discriminate | exact H3].
Defined.

Lemma selectAll_elem_of (names : list string) (prev : gset string) (n : string) :
  n ∈ Selection.selectAll names prev ↔ n ∈ names.
Proof. unfold Selection.selectAll. by rewrite elem_of_list_to_set. Qed.

Lemma size_list_to_set_NoDup (l : list string) :
  NoDup l → size (list_to_set l : gset string) = length l.
Proof. apply size_list_to_set. Qed.

(** The control chooses its branch by size alone. *)
Lemma selectAllClick_cases (st : App.State) :
  App.activeLocations (App.selectAllClick st)
  = if (size (App.activeLocations st)
        =? length (Selection.allLocationNames (App.currentFeatures st)))%nat
    then ∅
    else list_to_set (Selection.allLocationNames (App.currentFeatures st)).
Proof. reflexivity. Qed.

Lemma selectAllClick_currentFeatures (st : App.State) :
  App.currentFeatures (App.selectAllClick st) = App.currentFeatures st.
Proof. reflexivity. Qed.

(** C6, as the component has it.  The select-all control is the only
    entry to select-all and deselect-all, and it chooses between them by
    size.  When the store has not as many members as the active
    collection has names, a click leaves exactly those names selected,
    whatever the store held; when it has as many, a click empties it.
    So with distinct names a select-all followed by another click empties
    the store, and a second click never leaves what the first one left:
    the control is not idempotent. *)
Theorem selectAll_control_by_size (st : App.State) :
  let names := Selection.allLocationNames (App.currentFeatures st) in
  let clicked := App.selectAllClick st in
  (size (App.activeLocations st) ≠ length names →
   ∀ n, n ∈ App.activeLocations clicked ↔ n ∈ names)
  ∧ (size (App.activeLocations st) = length names →
     App.activeLocations clicked = ∅)
  ∧ (NoDup names → size (App.activeLocations st) ≠ length names →
     App.activeLocations (App.selectAllClick clicked) = ∅)
  ∧ (NoDup names → names ≠ [] →
     App.activeLocations (App.selectAllClick clicked)
     ≠ App.activeLocations clicked).
Proof.
  intros names clicked.
  assert (Hsel : size (App.activeLocations st) ≠ length names →
                 App.activeLocations clicked = list_to_set names).
  { intros H. unfold clicked. rewrite selectAllClick_cases. fold names.
    by apply Nat.eqb_neq in H as ->. }
  assert (Hdes : size (App.activeLocations st) = length names →
                 App.activeLocations clicked = ∅).
  { intros H. unfold clicked. rewrite selectAllClick_cases. fold names.
    by apply Nat.eqb_eq in H as ->. }
  assert (Hagain : App.activeLocations (App.selectAllClick clicked)
                   = if (size (App.activeLocations clicked) =? length names)%nat
                     then ∅ else list_to_set names).
  { rewrite selectAllClick_cases. unfold clicked at 2 3.
    by rewrite selectAllClick_currentFeatures. }
  split_and!.
  - intros H n. rewrite (Hsel H). apply elem_of_list_to_set.
  - exact Hdes.
  - intros Hnd H. rewrite Hagain, (Hsel H), size_list_to_set_NoDup by done.
    by rewrite Nat.eqb_refl.
  - intros Hnd Hne. rewrite Hagain.
    assert (Hpos : (0 < length names)%nat) by (destruct names; [done | cbn; lia]).
    assert (Hnonempty : (list_to_set names : gset string) ≠ ∅).
    { intros He. apply (f_equal size) in He.
      rewrite size_list_to_set_NoDup, size_empty in He by done. lia. }
    destruct (decide (size (App.activeLocations st) = length names)) as [H|H].
    + rewrite (Hdes H), size_empty.
      assert ((0 =? length names)%nat = false) as -> by (apply Nat.eqb_neq; lia).
      done.
    + rewrite (Hsel H), size_list_to_set_NoDup, Nat.eqb_refl by done.
      by intros He.
Qed.

(** On the world map with France selected: the first click selects both
    countries, the second empties the store. *)
Lemma selectAll_control_by_size_witness :
  let names := Selection.allLocationNames (App.currentFeatures franceSelected) in
  size (App.activeLocations franceSelected) ≠ length names
  ∧ NoDup names
  ∧ names ≠ []
  ∧ ("Spain" ∈ App.activeLocations (App.selectAllClick franceSelected))
  ∧ App.activeLocations
      (App.selectAllClick (App.selectAllClick franceSelected)) = ∅.
Proof.
  intros names.
  assert (H1 : size (App.activeLocations franceSelected) ≠ length names)
    by (vm_compute; lia).
  assert (H2 : NoDup names) by compute_done.
  destruct (selectAll_control_by_size franceSelected) as (Ha & _ & Hc & _).
  split_and!; [exact H1 | exact H2 | discriminate | | exact (Hc H2 H1)].
  apply (Ha H1). compute_done.
Defined.

(** C6, as specified, fails on the control: with everything selected, a
    click does not leave the names of the active collection selected, it
    empties the store. *)
Lemma selectAll_not_as_specified : ¬ selectAllAsSpecified.
Proof.
  intros H. specialize (H allSelected "France").
  assert (Hempty : App.activeLocations (App.selectAllClick allSelected) = ∅)
    by (by vm_compute).
  rewrite Hempty in H. apply (not_elem_of_empty (C := gset string) "France").
  apply H. compute_done.
Qed.

(** X21.  The control itself chooses by size: a first click selects every
    name unless the store already has as many members as there are names,
    and with distinct names a second click empties the store. *)
Lemma selectAllClick_twice (st : App.State) :
  let names := Selection.allLocationNames (App.currentFeatures st) in
  size (App.activeLocations st) ≠ length names →
  NoDup names →
  (∀ n, n ∈ App.activeLocations (App.selectAllClick st) ↔ n ∈ names)
  ∧ App.activeLocations (App.selectAllClick (App.selectAllClick st)) = ∅.
Proof.
  intros names Hsize Hnd.
  assert (Hsel : App.activeLocations (App.selectAllClick st)
                 = list_to_set names).
  { cbn. unfold Selection.selectAllClick. fold names.
    destruct (Nat.eqb_spec (size (App.activeLocations st)) (length names));
      [done | reflexivity]. }
  split.
  - intros n. rewrite Hsel. apply elem_of_list_to_set.
  - assert (Hcf : App.currentFeatures (App.selectAllClick st)
                  = App.currentFeatures st) by reflexivity.
    cbn. unfold Selection.selectAllClick at 1.
    change (App.currentFeatures (App.setActiveLocations _ st))
      with (App.currentFeatures st) in *.
    fold names.
    change (Selection.selectAllClick (App.currentFeatures st)
                                     (App.activeLocations st))
      with (App.activeLocations (App.selectAllClick st)).
    rewrite Hsel, size_list_to_set_NoDup, Nat.eqb_refl; done.
Qed.

(** ** Name normalization *)

Lemma normalizedName_collision :
  JsString.normalizedName "Guinea Bissau" = JsString.normalizedName "Guinea-Bissau".
Proof. reflexivity. Qed.

(** C10.  Two different names have the same normalized identifier, and the
    map then flips the wrong shape: with both regions drawn and nothing
    selected, the toggle of the second name highlights the first
    region's path and leaves the second region's path as it was. *)
Theorem normalizedName_not_injective :
  ∃ a b : string,
    a ≠ b
    ∧ JsString.normalizedName a = JsString.normalizedName b
    ∧ let da := Feature a "" (Some Polygon) in
      let db := Feature b "" (Some Polygon) in
      let doc := Dom.render [da; db] "" ∅ in
      let doc' := Dom.handleLocationToggle b doc in
      Dom.highlightOf da doc = Some false
      ∧ Dom.highlightOf db doc = Some false
      ∧ Dom.highlightOf da doc' = Some true
      ∧ Dom.highlightOf db doc' = Some false
      ∧ Dom.selected <$> Dom.rows doc' = [true; false].
Proof.
  exists "Guinea Bissau", "Guinea-Bissau".
  split; [discriminate|]. split; [reflexivity|]. vm_compute. done.
Qed.

(** ** Scope switch *)

Lemma commitUSAData_frame (r : FetchResult Topology) (st : App.State) :
  App.currentScope (App.commitUSAData r st) = App.currentScope st
  ∧ App.activeLocations (App.commitUSAData r st) = App.activeLocations st
  ∧ App.worldCountryFeatures (App.commitUSAData r st)
    = App.worldCountryFeatures st
  ∧ App.searchQuery (App.commitUSAData r st) = App.searchQuery st
  ∧ App.isLoading (App.commitUSAData r st) = App.isLoading st.
Proof. unfold App.commitUSAData. by destruct (App.usaFeatures r). Qed.

Lemma loadUSAData_returns (r : FetchResult Topology) (st : App.State) :
  ∃ st', App.loadUSAData r st = App.Returned st'
         ∧ App.currentScope st' = App.currentScope st
         ∧ App.activeLocations st' = App.activeLocations st
         ∧ App.worldCountryFeatures st' = App.worldCountryFeatures st.
Proof.
  unfold App.loadUSAData.
  destruct (App.issuesRequest st); [|by eexists].
  destruct (commitUSAData_frame r st) as (? & ? & ? & _). by eexists.
Qed.

Lemma handleScopeSelection_same (r : FetchResult Topology) (st : App.State) :
  App.handleScopeSelection (App.currentScope st) r st = App.Returned st.
Proof. unfold App.handleScopeSelection. by rewrite decide_True. Qed.

Lemma handleScopeSelection_other
      (scope : App.Scope) (r : FetchResult Topology) (st : App.State) :
  scope ≠ App.currentScope st →
  ∃ st', App.handleScopeSelection scope r st = App.Returned st'
         ∧ App.currentScope st' = scope
         ∧ App.activeLocations st' = ∅
         ∧ App.worldCountryFeatures st' = App.worldCountryFeatures st.
Proof.
  intros Hne. unfold App.handleScopeSelection. rewrite decide_False by done.
  destruct scope; cbn [App.andThen].
  - by eexists.
  - destruct (loadUSAData_returns r (App.beginScopeSelection App.usa st))
      as (st1 & -> & _ & Hact & Hw).
    cbn. eexists. split_and!; [reflexivity | done | exact Hact | exact Hw].
Qed.

(** With no request pending, the handler run to its end is the choice of
    the scope followed at once by the arrival of the response. *)
Lemma handleScopeSelection_runEvents
      (scope : App.Scope) (r : FetchResult Topology) (ses : App.Session) :
  App.inFlight ses = 0%nat →
  App.state (App.runEvents [App.SelectScope scope; App.UsaResponseArrives r] ses)
  = App.stateOf (App.handleScopeSelection scope r (App.state ses)).
Proof.
  intros H0. destruct ses as [st n]. cbn in H0. subst n.
  unfold App.runEvents, App.handleScopeSelection. cbn [fold_left App.step].
  unfold App.selectScope. cbn [App.state App.inFlight].
  destruct (decide (scope = App.currentScope st)); [reflexivity|].
  destruct scope; cbn [App.andThen App.stateOf]; [reflexivity|].
  unfold App.loadUSAData.
  by destruct (App.issuesRequest (App.beginScopeSelection App.usa st)).
Qed.

(** C3, as the component has it.  When a scope other than the current
    one is chosen, the store is emptied at once, whatever it held.  A
    switch that requests nothing (to the world, or to the USA with its
    states already stored) is complete at that moment.  A switch that
    requests the states leaves the old scope active and a request
    pending; the arrival of a response makes the USA the active scope and
    leaves the store as it is then.  Run to its end with nothing in
    between, the handler returns with the store empty. *)
Theorem scope_switch_clears_selection
        (scope : App.Scope) (r : FetchResult Topology) (ses : App.Session) :
  scope ≠ App.currentScope (App.state ses) →
  let chosen := App.step (App.SelectScope scope) ses in
  let requests :=
    match scope with
    | App.usa => App.issuesRequest (App.state ses)
    | App.world => false
    end in
  App.activeLocations (App.state chosen) = ∅
  ∧ (requests = false →
     App.currentScope (App.state chosen) = scope
     ∧ App.inFlight chosen = App.inFlight ses)
  ∧ (requests = true →
     App.currentScope (App.state chosen) = App.currentScope (App.state ses)
     ∧ App.inFlight chosen = S (App.inFlight ses))
  ∧ (∀ pending : App.Session,
       (0 < App.inFlight pending)%nat →
       let arrived := App.step (App.UsaResponseArrives r) pending in
       App.currentScope (App.state arrived) = App.usa
       ∧ App.activeLocations (App.state arrived)
         = App.activeLocations (App.state pending)
       ∧ App.inFlight arrived = pred (App.inFlight pending))
  ∧ App.returned (App.handleScopeSelection scope r (App.state ses)) = true
  ∧ App.activeLocations
      (App.stateOf (App.handleScopeSelection scope r (App.state ses))) = ∅
  ∧ App.currentScope
      (App.stateOf (App.handleScopeSelection scope r (App.state ses))) = scope.
Proof.
  intros Hne chosen requests.
  assert (Hchosen : chosen
                    = if requests
                      then App.mkSession
                             (App.beginScopeSelection scope (App.state ses))
                             (S (App.inFlight ses))
                      else App.mkSession
                             (App.finishScopeSelection scope
                                (App.beginScopeSelection scope (App.state ses)))
                             (App.inFlight ses)).
  { unfold chosen, requests. cbn [App.step]. unfold App.selectScope.
    rewrite decide_False by done. by destruct scope. }
  split_and!.
  - rewrite Hchosen. by destruct requests, scope.
  - intros Hr. rewrite Hchosen, Hr. by destruct scope.
  - intros Hr. rewrite Hchosen, Hr. by destruct scope.
  - intros pending Hpos arrived. unfold arrived. cbn [App.step].
    destruct (App.inFlight pending) as [|n]; [lia|].
    cbn [App.state App.inFlight]. unfold App.responseArrives.
    destruct (commitUSAData_frame r (App.state pending)) as (_ & Ha & _).
    split_and!; [reflexivity | exact Ha | reflexivity].
  - by destruct (handleScopeSelection_other scope r (App.state ses) Hne)
      as (st' & -> & _).
  - by destruct (handleScopeSelection_other scope r (App.state ses) Hne)
      as (st' & -> & _ & Ha & _).
  - by destruct (handleScopeSelection_other scope r (App.state ses) Hne)
      as (st' & -> & Hs & _).
Qed.

(** C3, as specified, fails: France is clicked on the world map while the
    states are on their way, and is still selected when the USA becomes
    the active scope. *)
Lemma selection_survives_pending_switch : ¬ switchAsSpecified.
Proof.
  intros H.
  specialize (H worldDocument
                [App.SelectScope App.usa; App.ToggleLocation "France"]
                (App.UsaResponseArrives usaDocument)).
  cbv zeta in H.
  assert (Hin : "France"
                ∈ App.activeLocations
                    (App.state
                       (App.step (App.UsaResponseArrives usaDocument)
                          franceClickedWhileLoading))) by compute_done.
  change (App.runEvents [App.SelectScope App.usa; App.ToggleLocation "France"]
                        (App.mountedSession worldDocument))
    with franceClickedWhileLoading in H.
  rewrite H in Hin; [by apply not_elem_of_empty in Hin|].
  vm_compute. discriminate.
Qed.

(** The same in the four-scope revision: the store is emptied as soon as
    the other scope is chosen. *)
Lemma scope_switch_clears_selection_four_scopes
      (scope : App4.Scope) (ses : App4.Session) :
  scope ≠ App4.currentScope (App4.state ses) →
  App4.activeLocations (App4.state (App4.selectScope scope ses)) = ∅.
Proof.
  intros Hne. unfold App4.selectScope. rewrite decide_False by done.
  by destruct (App4.issuesRequest scope _).
Qed.

(** ** Percentage *)

(** In [src/App.tsx] the total is the size of the active collection and
    the percentage is the specified one. *)
Lemma percentage_two_scopes (st : App.State) :
  App.totalReference st = length (App.currentFeatures st)
  ∧ App.percentage st
    = displayedPercentage (size (App.activeLocations st))
                          (length (App.currentFeatures st)).
Proof.
  assert (H : App.totalReference st = length (App.currentFeatures st)).
  { unfold App.totalReference, App.currentFeatures.
    by destruct (App.currentScope st). }
  split; [exact H|].
  unfold App.percentage, displayedPercentage, App.locationsCount. rewrite H.
  by destruct (length (App.currentFeatures st)).
Qed.

(** So it is in the six-scope revision, over the selectable collection. *)
Lemma percentage_six_scopes (st : App6.State) :
  App6.totalReference st = length (App6.selectableFeatures st)
  ∧ App6.percentage st
    = displayedPercentage (size (App6.activeLocations st))
                          (length (App6.selectableFeatures st)).
Proof.
  assert (H : App6.totalReference st = length (App6.selectableFeatures st)).
  { unfold App6.totalReference, App6.selectableFeatures, App6.currentFeatures.
    by destruct (App6.currentScope st). }
  split; [exact H|].
  unfold App6.percentage, displayedPercentage, App6.locationsCount. rewrite H.
  by destruct (length (App6.selectableFeatures st)).
Qed.

(** In the four-scope revision the total is the USA collection for every
    scope but the world. *)
Lemma totalReference_four_scopes (st : App4.State) :
  App4.totalReference st
  = match App4.currentScope st with
    | App4.world => length (App4.currentFeatures st)
    | _ => length (App4.usStateFeatures st)
    end.
Proof.
  unfold App4.totalReference, App4.currentFeatures.
  by destruct (App4.currentScope st).
Qed.

(** The four-scope percentage is the specified one over that total. *)
Lemma percentage_four_scopes (st : App4.State) :
  App4.percentage st
  = displayedPercentage
      (size (App4.activeLocations st))
      (match App4.currentScope st with
       | App4.world => length (App4.currentFeatures st)
       | _ => length (App4.usStateFeatures st)
       end).
Proof.
  unfold App4.percentage, displayedPercentage, App4.locationsCount.
  rewrite totalReference_four_scopes.
  by destruct (match App4.currentScope st with
               | App4.world => length (App4.currentFeatures st)
               | _ => length (App4.usStateFeatures st)
               end).
Qed.

Example toFixed1_examples :
  F64.toFixed1 (F64.mul (F64.div (F64.ofNat 1) (F64.ofNat 177)) (F64.ofNat 100))
  = Some "0.6"
  ∧ F64.toFixed1 (F64.mul (F64.div (F64.ofNat 1) (F64.ofNat 16)) (F64.ofNat 100))
    = Some "6.3"
  ∧ F64.toFixed1 (F64.mul (F64.div (F64.ofNat 50) (F64.ofNat 50)) (F64.ofNat 100))
    = Some "100.0".
Proof. split_and!; vm_compute; reflexivity. Qed.

(** C1.  With Europe active, two countries loaded and one selected, the
    four-scope revision displays ["0.0"]: it divides by the number of USA
    states, which is zero here.  The specified percentage is ["50.0"]. *)
Theorem percentage_europe_ignores_active_collection :
  App4.currentScope europeOneOfTwo = App4.europe
  ∧ size (App4.activeLocations europeOneOfTwo) = 1
  ∧ length (App4.currentFeatures europeOneOfTwo) = 2
  ∧ App4.percentage europeOneOfTwo = Some "0.0"
  ∧ displayedPercentage (size (App4.activeLocations europeOneOfTwo))
                        (length (App4.currentFeatures europeOneOfTwo))
    = Some "50.0".
Proof. split_and!; vm_compute; reflexivity. Qed.

(** With the fifty states loaded as well, the same Europe shows the share
    of fifty: one country of two reads ["2.0"]. *)
Lemma percentage_europe_over_usa_total (states : list GeoFeature) :
  length states = 50 →
  App4.percentage
    (App4.setUsStateFeatures states europeOneOfTwo) = Some "2.0".
Proof.
  intros H. unfold App4.percentage, App4.totalReference, App4.locationsCount.
  change (App4.currentScope (App4.setUsStateFeatures states europeOneOfTwo))
    with App4.europe.
  change (App4.usStateFeatures (App4.setUsStateFeatures states europeOneOfTwo))
    with states.
  change (App4.activeLocations (App4.setUsStateFeatures states europeOneOfTwo))
    with (App4.activeLocations europeOneOfTwo).
  rewrite H. vm_compute. reflexivity.
Qed.

(** ** The selection stays within the active scope *)

Lemma allLocationNames_elem_of (features : list GeoFeature) (n : string) :
  n ∈ Selection.allLocationNames features ↔ n ∈ List.map name features ∧ n ≠ "".
Proof.
  unfold Selection.allLocationNames.
  rewrite !list_elem_of_In, filter_In, truthy_nonempty. done.
Qed.

Lemma selectAllClick_elem_of (features : list GeoFeature) (S : gset string) (n : string) :
  n ∈ Selection.selectAllClick features S → n ∈ List.map name features.
Proof.
  unfold Selection.selectAllClick, Selection.deselectAll, Selection.selectAll.
  destruct (_ =? _)%nat; [set_solver|].
  rewrite elem_of_list_to_set, allLocationNames_elem_of. tauto.
Qed.

Lemma applyOp_within_scope (op : App.Op) (st : App.State) :
  App.selectionWithinScope st →
  App.toggleWithinScope st op →
  App.selectionWithinScope (App.applyOp op st).
Proof.
  intros Hinv Hop n. destruct op as [m| |scope r]; cbn.
  - rewrite toggle_elem_of. intros [[_ Hn] | [-> _]]; [by apply Hinv | exact Hop].
  - apply selectAllClick_elem_of.
  - destruct (decide (scope = App.currentScope st)) as [->|Hne].
    + rewrite handleScopeSelection_same. apply Hinv.
    + destruct (handleScopeSelection_other scope r st Hne)
        as (st' & Heq & _ & Hact & _).
      rewrite Heq. cbn. rewrite Hact. set_solver.
Qed.

Lemma run_within_scope (ops : list App.Op) (st : App.State) :
  App.selectionWithinScope st →
  App.togglesWithinScope st ops →
  App.selectionWithinScope (App.run ops st).
Proof.
  revert st. induction ops as [|op ops IH]; intros st Hinv Hops; [exact Hinv|].
  destruct Hops as [Hop Hops]. cbn. apply IH; [|exact Hops].
  by apply applyOp_within_scope.
Qed.

Lemma mounted_nothing_selected (r : FetchResult (list GeoFeature)) :
  App.activeLocations (App.mounted r) = ∅
  ∧ App.currentScope (App.mounted r) = App.world.
Proof.
  unfold App.mounted, App.initialize, App.loadWorldData.
  destruct (App.worldFeatures r); done.
Qed.

(** C2, as the component has it.  After any sequence of toggles,
    select-all and deselect-all (both through the one control) and
    completed scope switches in which every toggled name is a region of
    the scope active at that moment, every selected name is a region of
    the active scope. *)
Theorem selection_within_scope_preserved
        (r : FetchResult (list GeoFeature)) (ops : list App.Op) :
  App.togglesWithinScope (App.mounted r) ops →
  App.selectionWithinScope (App.run ops (App.mounted r)).
Proof.
  apply run_within_scope. intros n.
  destruct (mounted_nothing_selected r) as [-> _]. set_solver.
Qed.

(** A toggle does not look at the active collection: the name goes in. *)
Lemma toggle_unknown_name_selected (n : string) (st : App.State) :
  n ∉ App.activeLocations st →
  n ∈ App.activeLocations (App.handleLocationToggle n st).
Proof. intros H. cbn. rewrite toggle_elem_of. by right. Qed.

(** ** The list under the search box *)

Lemma worldFeatures_named (r : FetchResult (list GeoFeature)) (fs : list GeoFeature) :
  App.worldFeatures r = inr fs → named fs.
Proof.
  destruct r as [?| |features]; cbn; try discriminate.
  intros [= <-]. apply Forall_forall. intros d Hd.
  apply list_elem_of_In, filter_In in Hd as [_ Hd].
  apply andb_true_iff in Hd as [Hd _]. by apply truthy_nonempty.
Qed.

Lemma usaFeatures_named (r : FetchResult Topology) (fs : list GeoFeature) :
  App.usaFeatures r = inr fs → named fs.
Proof.
  destruct r as [?| |topoData]; cbn; try discriminate.
  destruct (objects topoData !! "states"); [|discriminate].
  intros [= <-]. apply Forall_forall. intros d Hd.
  apply list_elem_of_In, filter_In in Hd as [_ Hd].
  apply andb_true_iff in Hd as [Hd _]. by apply truthy_nonempty.
Qed.

Lemma mounted_named (r : FetchResult (list GeoFeature)) :
  named (App.worldCountryFeatures (App.mounted r))
  ∧ named (App.usStateFeatures (App.mounted r)).
Proof.
  unfold App.mounted, App.initialize, App.loadWorldData.
  destruct (App.worldFeatures r) as [err|fs] eqn:Hr; cbn.
  - split; constructor.
  - split; [by eapply worldFeatures_named | constructor].
Qed.

Lemma applyOp_named (op : App.Op) (st : App.State) :
  named (App.worldCountryFeatures st) ∧ named (App.usStateFeatures st) →
  named (App.worldCountryFeatures (App.applyOp op st))
  ∧ named (App.usStateFeatures (App.applyOp op st)).
Proof.
  intros [Hw Hu]. destruct op as [m| |scope r]; try (split; assumption).
  cbn. unfold App.handleScopeSelection.
  destruct (decide (scope = App.currentScope st)); [by split|].
  destruct scope; cbn; [by split|].
  unfold App.loadUSAData.
  destruct (App.issuesRequest _); cbn; [|by split].
  unfold App.commitUSAData.
  destruct (App.usaFeatures r) as [err|fs] eqn:Hr; cbn.
  - split; [assumption | constructor].
  - split; [assumption | by eapply usaFeatures_named].
Qed.

Lemma run_named (ops : list App.Op) (st : App.State) :
  named (App.worldCountryFeatures st) ∧ named (App.usStateFeatures st) →
  named (App.currentFeatures (App.run ops st)).
Proof.
  revert st. induction ops as [|op ops IH]; intros st H.
  - cbn. unfold App.currentFeatures. destruct (App.currentScope st); tauto.
  - cbn. apply IH. by apply applyOp_named.
Qed.

Lemma named_allLocationNames (features : list GeoFeature) :
  named features →
  List.filter JsString.truthy (List.map name features) = List.map name features.
Proof.
  intros H. apply filter_all. apply Forall_forall. intros n Hn.
  apply list_elem_of_In, in_map_iff in Hn as (d & <- & Hd).
  apply truthy_nonempty.
  by apply (proj1 (Forall_forall _ _) H), list_elem_of_In.
Qed.

(** What the list shows for a collection whose regions all have a name. *)
Lemma filteredLocations_of_named (features : list GeoFeature) (q : string) :
  named features →
  let names := List.map name features in
  let shown := Selection.filteredLocations features q in
  StronglySorted String.le shown
  ∧ (∀ n, n ∈ shown
          ↔ n ∈ names
            ∧ ∃ a b, JsString.toLowerCase n = a +:+ JsString.toLowerCase q +:+ b)
  ∧ shown ≡ₚ List.filter
               (λ n, JsString.includes (JsString.toLowerCase n)
                                       (JsString.toLowerCase q))
               names
  ∧ (q = "" → shown = JsString.sort names ∧ shown ≡ₚ names).
Proof.
  intros Hnamed names shown.
  assert (Hshown : shown
                   = JsString.sort
                       (List.filter
                          (λ n, JsString.includes (JsString.toLowerCase n)
                                                  (JsString.toLowerCase q))
                          names)).
  { unfold shown, Selection.filteredLocations.
    by rewrite named_allLocationNames. }
  assert (Hperm : shown ≡ₚ List.filter
                    (λ n, JsString.includes (JsString.toLowerCase n)
                                            (JsString.toLowerCase q))
                    names).
  { rewrite Hshown. apply merge_sort_Permutation. }
  split_and!.
  - rewrite Hshown. apply (StronglySorted_merge_sort String.le).
  - intros n. rewrite Hperm, list_elem_of_In, filter_In, <- list_elem_of_In.
    by rewrite includes_substring.
  - exact Hperm.
  - intros ->.
    assert (Hall : List.filter
                     (λ n, JsString.includes (JsString.toLowerCase n)
                                             (JsString.toLowerCase ""))
                     names = names).
    { apply filter_all, Forall_forall. intros n _. apply includes_empty. }
    rewrite Hall in Hshown, Hperm. done.
Qed.

(** The code's [toLowerCase] sends every code unit to its place in the
    alphabet: checked on all 256 of them. *)
Lemma rank_lowerChar (c : ascii) : rank c = N_of_ascii (JsString.lowerChar c).
Proof. destruct c as [[] [] [] [] [] [] [] []]; reflexivity. Qed.

Lemma N_of_ascii_inj (c d : ascii) : N_of_ascii c = N_of_ascii d → c = d.
Proof.
  intros H. rewrite <- (ascii_N_embedding c), <- (ascii_N_embedding d).
  by rewrite H.
Qed.

Lemma rank_eqb (c d : ascii) :
  (rank c =? rank d)%N = true ↔ JsString.lowerChar c = JsString.lowerChar d.
Proof.
  rewrite N.eqb_eq, !rank_lowerChar. split; [apply N_of_ascii_inj | by intros ->].
Qed.

Lemma beginsIgnoringCase_prefix (s q : string) :
  beginsIgnoringCase s q
  = String.prefix (JsString.toLowerCase q) (JsString.toLowerCase s).
Proof.
  revert s. induction q as [|d q IH]; intros s; [by destruct s|].
  destruct s as [|c s]; [reflexivity|].
  cbn [beginsIgnoringCase JsString.toLowerCase String.prefix].
  rewrite IH.
  destruct (ascii_dec (JsString.lowerChar d) (JsString.lowerChar c)) as [He|Hne].
  - assert ((rank c =? rank d)%N = true) as -> by (by apply rank_eqb).
    reflexivity.
  - assert ((rank c =? rank d)%N = false) as ->; [|reflexivity].
    apply not_true_is_false. rewrite rank_eqb. congruence.
Qed.

(** The test of the code is the case-insensitive substring test. *)
Lemma containsIgnoringCase_includes (s q : string) :
  containsIgnoringCase s q
  = JsString.includes (JsString.toLowerCase s) (JsString.toLowerCase q).
Proof.
  induction s as [|c s IH].
  - cbn [containsIgnoringCase JsString.toLowerCase JsString.includes].
    by rewrite beginsIgnoringCase_prefix.
  - cbn [containsIgnoringCase JsString.includes].
    rewrite beginsIgnoringCase_prefix, IH. reflexivity.
Qed.

(** The order of [sort()]: by the first code unit in which two strings
    differ, a beginning of a string before the string. *)
Lemma String_le_code_units (c d : ascii) (a b : string) :
  String.le "" b
  ∧ ¬ String.le (String c a) ""
  ∧ (String.le (String c a) (String d b)
     ↔ (N_of_ascii c < N_of_ascii d)%N ∨ (c = d ∧ String.le a b)).
Proof.
  unfold String.le, String.leb. split_and!.
  - by destruct b.
  - cbn. intros [].
  - cbn [String.compare]. unfold Ascii.compare.
    destruct (N.compare_spec (N_of_ascii c) (N_of_ascii d)) as [He|Hlt|Hgt].
    + apply N_of_ascii_inj in He. subst d.
      split; [intros H; by right | intros [H|[_ H]]; [lia | exact H]].
    + split; [by left | done].
    + split; [intros [] | intros [H|[-> _]]; lia].
Qed.

(** C5, as the component has it.  In every state the component reaches,
    and for every query, the list holds exactly the region names of the
    active collection that contain the query as a substring when the
    case of letters is not counted, each as often as it occurs; it is
    sorted in the order [sort()] uses on strings, by code units; and for
    the empty query it is the full list of names in that order. *)
Theorem filteredLocations_exact_and_sorted
        (r : FetchResult (list GeoFeature)) (ops : list App.Op) (q : string) :
  let st := App.setSearchQuery q (App.run ops (App.mounted r)) in
  let names := List.map name (App.currentFeatures st) in
  StronglySorted String.le (App.filteredLocations st)
  ∧ (∀ n, n ∈ App.filteredLocations st
          ↔ n ∈ names ∧ containsIgnoringCase n q = true)
  ∧ App.filteredLocations st
      ≡ₚ List.filter (λ n, containsIgnoringCase n q) names
  ∧ (q = "" →
     App.filteredLocations st = JsString.sort names
     ∧ App.filteredLocations st ≡ₚ names)
  ∧ (∀ (c d : ascii) (a b : string),
       String.le (String c a) (String d b)
       ↔ (N_of_ascii c < N_of_ascii d)%N ∨ (c = d ∧ String.le a b)).
Proof.
  intros st names.
  destruct (filteredLocations_of_named (App.currentFeatures st) q)
    as (Hsorted & Hmem & Hperm & Hempty).
  { change (App.currentFeatures st)
      with (App.currentFeatures (App.run ops (App.mounted r))).
    apply run_named, mounted_named. }
  split_and!.
  - exact Hsorted.
  - intros n. change (n ∈ App.filteredLocations st)
      with (n ∈ Selection.filteredLocations (App.currentFeatures st) q).
    rewrite Hmem, containsIgnoringCase_includes, includes_substring. done.
  - change (App.filteredLocations st)
      with (Selection.filteredLocations (App.currentFeatures st) q).
    rewrite Hperm. fold names.
    assert (Hf : List.filter
                   (λ n, JsString.includes (JsString.toLowerCase n)
                                           (JsString.toLowerCase q)) names
                 = List.filter (λ n, containsIgnoringCase n q) names).
    { apply filter_ext. intros n. by rewrite containsIgnoringCase_includes. }
    by rewrite Hf.
  - exact Hempty.
  - intros c d a b. apply String_le_code_units.
Qed.

(** The query "sPa" after a session on the sample data, and the empty
    query. *)
Lemma filteredLocations_exact_and_sorted_witness :
  let st := App.run sampleSession (App.mounted worldDocument) in
  "" = ""
  ∧ App.filteredLocations (App.setSearchQuery "" st)
    = JsString.sort (List.map name (App.currentFeatures st))
  ∧ App.filteredLocations (App.setSearchQuery "" st) = ["France"; "Spain"]
  ∧ "Spain" ∈ App.filteredLocations (App.setSearchQuery "sPa" st)
  ∧ "France" ∉ App.filteredLocations (App.setSearchQuery "sPa" st).
Proof.
  intros st.
  destruct (filteredLocations_exact_and_sorted worldDocument sampleSession "")
    as (_ & _ & _ & H & _).
  destruct (filteredLocations_exact_and_sorted worldDocument sampleSession "sPa")
    as (_ & Hm & _).
  split_and!; [reflexivity | apply H; reflexivity | vm_compute; reflexivity | |].
  - apply Hm. split; [compute_done | reflexivity].
  - intros Hin. apply Hm in Hin as [_ Hc]. discriminate Hc.
Defined.

(** C5, as specified, fails on the order: [sort()] puts every capital
    before every small letter, so "Zimbabwe" comes before "albania". *)
Lemma list_not_alphabetical :
  named [zimbabwe; albania]
  ∧ Selection.filteredLocations [zimbabwe; albania] "" = ["Zimbabwe"; "albania"]
  ∧ alphabetical "Zimbabwe" "albania" = false
  ∧ ¬ listAsSpecified [zimbabwe; albania] "".
Proof.
  split_and!; [repeat constructor; discriminate | by vm_compute | reflexivity |].
  intros [_ Hsorted].
  assert (Hshown : Selection.filteredLocations [zimbabwe; albania] ""
                   = ["Zimbabwe"; "albania"]) by (by vm_compute).
  rewrite Hshown in Hsorted.
  apply StronglySorted_inv in Hsorted as [_ Hall].
  apply Forall_cons in Hall as [Hza _]. discriminate Hza.
Qed.

Example filteredLocations_examples :
  Selection.filteredLocations [spain; france; texas; ohio] "" 
  = ["France"; "Ohio"; "Spain"; "Texas"]
  ∧ Selection.filteredLocations [spain; france; texas; ohio] "A"
    = ["France"; "Spain"; "Texas"]
  ∧ Selection.filteredLocations [spain; france; Feature "" "" None] "x" = [].
Proof. split_and!; vm_compute; reflexivity. Qed.

(** ** Fit to viewport *)

Lemma strictEq_eq (a b : JsNum.num) : JsNum.strictEq a b = true → a = b.
Proof.
  destruct a as [| | |p], b as [| | |q]; cbn; try discriminate; try reflexivity.
  destruct (p ?= q)%Qc eqn:Hpq; try discriminate.
  intros _. f_equal. by apply Qceq_alt.
Qed.



Lemma mul_one_l (a : JsNum.num) : JsNum.mul JsNum.one a = a.
Proof.
  destruct a as [| | |q]; try reflexivity.
  cbn. f_equal. apply Qcmult_1_l.
Qed.

Lemma add_zero_l (a : JsNum.num) : JsNum.add JsNum.zero a = a.
Proof.
  destruct a as [| | |q]; try reflexivity.
  cbn. f_equal. apply Qcplus_0_l.
Qed.

(** [d3.zoomIdentity.translate(tx, ty).scale(s)] has scale [s] and
    translation [(tx, ty)]. *)
Lemma translate_scale_identity (tx ty s : JsNum.num) :
  Zoom.scale (Zoom.translate Zoom.zoomIdentity tx ty) s = Zoom.Transform s tx ty.
Proof.
  unfold Zoom.translate, Zoom.scale.
  destruct (JsNum.strictEq tx JsNum.zero && JsNum.strictEq ty JsNum.zero) eqn:Ht.
  - apply andb_true_iff in Ht as [Hx%strictEq_eq Hy%strictEq_eq]. subst tx ty.
    destruct (JsNum.strictEq s JsNum.one) eqn:Hs.
    + apply strictEq_eq in Hs. by subst s.
    + cbn [Zoom.k Zoom.x Zoom.y Zoom.zoomIdentity]. by rewrite mul_one_l.
  - destruct (JsNum.strictEq s JsNum.one) eqn:Hs;
      cbn [Zoom.k Zoom.x Zoom.y Zoom.zoomIdentity];
      rewrite ?mul_one_l, ?add_zero_l; [|reflexivity].
    apply strictEq_eq in Hs. by subst s.
Qed.

Lemma ofZ_pos (z : Z) : (0 < z)%Z → (0 < Q2Qc (inject_Z z))%Qc.
Proof.
  intros H. unfold Qclt. cbn [this Q2Qc].
  rewrite !Qred_correct. change 0%Q with (inject_Z 0). by rewrite <- Zlt_Qlt.
Qed.

Lemma div_fin_pos (a b : Qc) :
  (0 < b)%Qc → JsNum.div (JsNum.Fin a) (JsNum.Fin b) = JsNum.Fin (a / b).
Proof.
  intros H. cbn. unfold JsNum.sgn.
  assert ((b ?= 0)%Qc = Gt) as -> by (by apply Qcgt_alt).
  reflexivity.
Qed.

Lemma two_eq : Q2Qc (inject_Z 2) = (1 + 1)%Qc.
Proof. apply Qc_is_canon. reflexivity. Qed.

Lemma two_pos : (0 < 1 + 1)%Qc.
Proof. reflexivity. Qed.

Lemma half_sum (W s a b : Qc) :
  ((s * a + (W - s * (a + b)) / (1 + 1)) + (s * b + (W - s * (a + b)) / (1 + 1)) = W)%Qc.
Proof. field. intros H. discriminate H. Qed.

Lemma min_fin (a b : Qc) :
  ∃ s, JsNum.min (JsNum.Fin a) (JsNum.Fin b) = JsNum.Fin s
       ∧ (s <= a)%Qc ∧ (s <= b)%Qc ∧ (s = a ∨ s = b).
Proof.
  cbn. destruct (a ?= b)%Qc eqn:Hab.
  - apply Qceq_alt in Hab as ->. exists b. split_and!; auto using Qcle_refl.
  - apply Qclt_alt in Hab. exists a. split_and!; auto using Qcle_refl, Qclt_le_weak.
  - apply Qcgt_alt in Hab. exists b. split_and!; auto using Qcle_refl, Qclt_le_weak.
Qed.

Lemma Qcinv_pos (a : Qc) : (0 < a)%Qc → (0 < / a)%Qc.
Proof.
  unfold Qclt. cbn [this Qcinv Q2Qc]. rewrite !Qred_correct.
  apply Qinv_lt_0_compat.
Qed.

Lemma Qcdiv_pos (a b : Qc) : (0 < a)%Qc → (0 < b)%Qc → (0 < a / b)%Qc.
Proof.
  intros Ha Hb. unfold Qcdiv.
  rewrite <- (Qcmult_0_l (/ b)). apply Qcmult_lt_compat_r; [by apply Qcinv_pos | done].
Qed.

Lemma Qcdiv_mult_cancel (a b : Qc) : (0 < b)%Qc → (a / b * b = a)%Qc.
Proof. intros Hb. field. intros ->. by apply Qclt_not_eq in Hb. Qed.


(** Past the guards: refs set, collection not empty, viewport not empty. *)
Lemma fit_past_guards
      (pathBounds : Z → Z → list GeoFeature → Bounds) (refs : Refs)
      (features : list GeoFeature) (previous : Zoom.ZoomTransform)
      (w h : Z) (x0 y0 x1 y1 : JsNum.num) :
  currentProjectionRef refs = true →
  pathRef refs = true →
  updateSvgDimensions refs = (w, h) →
  (0 < w)%Z → (0 < h)%Z →
  pathBounds w h features = ((x0, y0), (x1, y1)) →
  features ≠ [] →
  let scale := JsNum.min (JsNum.div (JsNum.ofZ w) (JsNum.sub x1 x0))
                         (JsNum.div (JsNum.ofZ h) (JsNum.sub y1 y0)) in
  updateSvgDimensionsAndFit pathBounds refs features previous
  = if JsNum.strictEq x0 JsNum.PInf || JsNum.strictEq x1 JsNum.NInf
       || JsNum.strictEq y0 JsNum.PInf || JsNum.strictEq y1 JsNum.NInf
    then Zoom.zoomIdentity
    else Zoom.Transform scale
           (JsNum.div (JsNum.sub (JsNum.ofZ w) (JsNum.mul scale (JsNum.add x0 x1)))
                      JsNum.two)
           (JsNum.div (JsNum.sub (JsNum.ofZ h) (JsNum.mul scale (JsNum.add y0 y1)))
                      JsNum.two).
Proof.
  intros Hproj Hpath Hdims Hw Hh Hb Hne scale.
  unfold updateSvgDimensionsAndFit. rewrite Hproj, Hpath, Hdims, Hb. cbn [negb orb].
  assert (Hwz : (w =? 0)%Z = false) by (apply Z.eqb_neq; lia).
  assert (Hhz : (h =? 0)%Z = false) by (apply Z.eqb_neq; lia).
  rewrite Hwz, Hhz. cbn [orb].
  destruct features as [|d features]; [done|]. cbn [length Nat.eqb].
  by rewrite translate_scale_identity.
Qed.

(** The computed branch: a non-empty collection whose bounds pass the
    test of the source. *)
Lemma fit_formula
      (pathBounds : Z → Z → list GeoFeature → Bounds) (refs : Refs)
      (features : list GeoFeature) (previous : Zoom.ZoomTransform)
      (w h : Z) (x0 y0 x1 y1 : JsNum.num) :
  currentProjectionRef refs = true →
  pathRef refs = true →
  updateSvgDimensions refs = (w, h) →
  (0 < w)%Z → (0 < h)%Z →
  pathBounds w h features = ((x0, y0), (x1, y1)) →
  features ≠ [] →
  JsNum.strictEq x0 JsNum.PInf || JsNum.strictEq x1 JsNum.NInf
  || JsNum.strictEq y0 JsNum.PInf || JsNum.strictEq y1 JsNum.NInf = false →
  let scale := JsNum.min (JsNum.div (JsNum.ofZ w) (JsNum.sub x1 x0))
                         (JsNum.div (JsNum.ofZ h) (JsNum.sub y1 y0)) in
  updateSvgDimensionsAndFit pathBounds refs features previous
  = Zoom.Transform scale
      (JsNum.div (JsNum.sub (JsNum.ofZ w) (JsNum.mul scale (JsNum.add x0 x1)))
                 JsNum.two)
      (JsNum.div (JsNum.sub (JsNum.ofZ h) (JsNum.mul scale (JsNum.add y0 y1)))
                 JsNum.two).
Proof.
  intros Hproj Hpath Hdims Hw Hh Hb Hne Htest scale.
  rewrite (fit_past_guards pathBounds refs features previous w h x0 y0 x1 y1)
    by done.
  by rewrite Htest.
Qed.




(** X16.  With finite bounds of positive width and height the fit is the
    largest one that keeps the aspect ratio: the scaled bounds are no wider
    and no higher than the viewport, they fill it in one direction, and
    the images of opposite edges lie symmetrically about the middle of the
    viewport. *)
Lemma fit_centers_bounds
      (pathBounds : Z → Z → list GeoFeature → Bounds) (refs : Refs)
      (features : list GeoFeature) (previous : Zoom.ZoomTransform)
      (w h : Z) (p0 q0 p1 q1 : Qc) :
  currentProjectionRef refs = true →
  pathRef refs = true →
  updateSvgDimensions refs = (w, h) →
  (0 < w)%Z → (0 < h)%Z →
  features ≠ [] →
  pathBounds w h features
  = ((JsNum.Fin p0, JsNum.Fin q0), (JsNum.Fin p1, JsNum.Fin q1)) →
  (p0 < p1)%Qc → (q0 < q1)%Qc →
  let W := Q2Qc (inject_Z w) in
  let H := Q2Qc (inject_Z h) in
  ∃ s tx ty : Qc,
    updateSvgDimensionsAndFit pathBounds refs features previous
    = Zoom.Transform (JsNum.Fin s) (JsNum.Fin tx) (JsNum.Fin ty)
    ∧ (0 < s)%Qc
    ∧ (s * (p1 - p0) <= W)%Qc ∧ (s * (q1 - q0) <= H)%Qc
    ∧ (s * (p1 - p0) = W ∨ s * (q1 - q0) = H)%Qc
    ∧ ((s * p0 + tx) + (s * p1 + tx) = W)%Qc
    ∧ ((s * q0 + ty) + (s * q1 + ty) = H)%Qc.
Proof.
  intros Hproj Hpath Hdims Hw Hh Hne Hb Hp Hq W H.
  rewrite (fit_formula pathBounds refs features previous w h _ _ _ _
             Hproj Hpath Hdims Hw Hh Hb Hne eq_refl).
  assert (HW : (0 < W)%Qc) by by apply ofZ_pos.
  assert (HH : (0 < H)%Qc) by by apply ofZ_pos.
  assert (Hdx : (0 < p1 - p0)%Qc) by by apply Qclt_minus_iff in Hp.
  assert (Hdy : (0 < q1 - q0)%Qc) by by apply Qclt_minus_iff in Hq.
  change (JsNum.sub (JsNum.Fin p1) (JsNum.Fin p0)) with (JsNum.Fin (p1 - p0)).
  change (JsNum.sub (JsNum.Fin q1) (JsNum.Fin q0)) with (JsNum.Fin (q1 - q0)).
  change (JsNum.ofZ w) with (JsNum.Fin W). change (JsNum.ofZ h) with (JsNum.Fin H).
  rewrite !div_fin_pos by done.
  destruct (min_fin (W / (p1 - p0)) (H / (q1 - q0))) as (s & -> & Hsa & Hsb & Hs).
  change (JsNum.add (JsNum.Fin p0) (JsNum.Fin p1)) with (JsNum.Fin (p0 + p1)).
  change (JsNum.add (JsNum.Fin q0) (JsNum.Fin q1)) with (JsNum.Fin (q0 + q1)).
  change (JsNum.mul (JsNum.Fin s) (JsNum.Fin (p0 + p1)))
    with (JsNum.Fin (s * (p0 + p1))).
  change (JsNum.mul (JsNum.Fin s) (JsNum.Fin (q0 + q1)))
    with (JsNum.Fin (s * (q0 + q1))).
  change (JsNum.sub (JsNum.Fin W) (JsNum.Fin (s * (p0 + p1))))
    with (JsNum.Fin (W - s * (p0 + p1))).
  change (JsNum.sub (JsNum.Fin H) (JsNum.Fin (s * (q0 + q1))))
    with (JsNum.Fin (H - s * (q0 + q1))).
  unfold JsNum.two, JsNum.ofZ. rewrite two_eq.
  rewrite !div_fin_pos by apply two_pos.
  eexists _, _, _. split; [reflexivity|].
  split_and!.
  - destruct Hs as [-> | ->]; by apply Qcdiv_pos.
  - eapply Qcle_trans;
      [apply Qcmult_le_compat_r; [exact Hsa | by apply Qclt_le_weak]|].
    rewrite Qcdiv_mult_cancel by done. apply Qcle_refl.
  - eapply Qcle_trans;
      [apply Qcmult_le_compat_r; [exact Hsb | by apply Qclt_le_weak]|].
    rewrite Qcdiv_mult_cancel by done. apply Qcle_refl.
  - destruct Hs as [-> | ->]; [left | right]; by apply Qcdiv_mult_cancel.
  - apply half_sum.
  - apply half_sum.
Qed.

(** ** Fit to viewport: examples *)







(** On the component: the world is fitted, the switch to the USA fails,
    and the next fit leaves the world's transform in place. *)
Lemma fit_after_failed_switch_keeps_world_fit :
  let fitted := App.fit insetBounds (viewport 800 600) (App.mounted worldDocument) in
  let failed := App.stateOf (App.handleScopeSelection App.usa networkError fitted) in
  let refitted := App.fit insetBounds (viewport 800 600) failed in
  App.currentFeatures failed = []
  ∧ App.initialTransformRef refitted = App.initialTransformRef fitted
  ∧ App.initialTransformRef refitted ≠ Zoom.zoomIdentity.
Proof.
  split_and!; [reflexivity | reflexivity |].
  intros H. apply (f_equal Zoom.k) in H.
  assert (Hk : match Zoom.k (App.initialTransformRef
                               (App.fit insetBounds (viewport 800 600)
                                  (App.stateOf
                                     (App.handleScopeSelection App.usa networkError
                                        (App.fit insetBounds (viewport 800 600)
                                           (App.mounted worldDocument)))))) with
               | JsNum.Fin q => Qnum (this q) | _ => 0%Z end = 400%Z)
    by (vm_compute; reflexivity).
  rewrite H in Hk. vm_compute in Hk. discriminate Hk.
Qed.

(** ** Scope switch and selection: examples *)

(** Two countries selected, then the USA chosen: the store is empty at
    once, the world still active, one request pending. *)
Lemma scope_switch_clears_selection_witness :
  let ses := App.mkSession
               (App.run [App.Toggle "France"; App.Toggle "Spain"]
                        (App.mounted worldDocument)) 0 in
  let chosen := App.step (App.SelectScope App.usa) ses in
  App.usa ≠ App.currentScope (App.state ses)
  ∧ size (App.activeLocations (App.state ses)) = 2
  ∧ App.activeLocations (App.state chosen) = ∅
  ∧ App.currentScope (App.state chosen) = App.world
  ∧ App.inFlight chosen = 1.
Proof.
  intros ses chosen.
  assert (Hne : App.usa ≠ App.currentScope (App.state ses))
    by (vm_compute; discriminate).
  destruct (scope_switch_clears_selection App.usa usaDocument ses Hne)
    as (H1 & _ & H3 & _).
  split_and!; [exact Hne | vm_compute; reflexivity | exact H1 | |].
  - exact (proj1 (H3 eq_refl)).
  - exact (proj2 (H3 eq_refl)).
Defined.

(** The sample session stays within the active scope. *)
Lemma selection_within_scope_preserved_witness :
  App.togglesWithinScope (App.mounted worldDocument) sampleSession
  ∧ App.selectionWithinScope (App.run sampleSession (App.mounted worldDocument)).
Proof.
  assert (H : App.togglesWithinScope (App.mounted worldDocument) sampleSession).
  { vm_compute. repeat split; repeat constructor. }
  split; [exact H|].
  exact (selection_within_scope_preserved worldDocument sampleSession H).
Defined.

(** C2, as specified, fails: toggling a name that no region of the active
    scope bears puts that name into the store. *)
Lemma unknown_name_leaves_scope :
  ¬ (∀ (r : FetchResult (list GeoFeature)) (ops : list App.Op),
        App.selectionWithinScope (App.run ops (App.mounted r))).
Proof.
  intros H.
  specialize (H worldDocument [App.Toggle "Atlantis"] "Atlantis").
  assert (Hin : "Atlantis" ∈ App.activeLocations
                  (App.run [App.Toggle "Atlantis"] (App.mounted worldDocument))).
  { apply toggle_unknown_name_selected.
    destruct (mounted_nothing_selected worldDocument) as [-> _]. set_solver. }
  apply H in Hin. vm_compute in Hin.
  apply list_elem_of_In in Hin. cbn in Hin.
  destruct Hin as [Hin | [Hin | []]]; discriminate Hin.
Qed.

(** ** Load failures *)

(** The ways the USA request fails: a rejected request (network error or
    unparsable document), an empty response, a topology without the
    [states] object. *)
Lemma usaFeatures_failure (r : FetchResult Topology) :
  (∃ err, App.usaFeatures r = inl err)
  ↔ (∃ reason, r = FetchRejected reason)
    ∨ r = FetchNoContent
    ∨ (∃ topoData, r = FetchResolved topoData ∧ objects topoData !! "states" = None).
Proof.
  destruct r as [reason| |topoData]; cbn.
  - split; [intros _; left; by eexists | intros _; by eexists].
  - split; [intros _; right; by left | intros _; by eexists].
  - destruct (objects topoData !! "states") eqn:Hk.
    + split; [intros [? [=]] | intros [[? [=]] | [[=] | (t & [= <-] & Ht)]]].
      congruence.
    + split; [intros _; right; right; by eexists | intros _; by eexists].
Qed.

(** C8, as the component has it.  When the response to a pending USA
    request is a failure, the error notification is shown, the USA
    collection is empty, and the switch is completed all the same: the USA
    becomes the active scope with nothing to show, the loading flag is
    lowered, and the selection is left as it was when the response
    arrived.  The world collection is untouched, and choosing the world
    again shows it.  Neither [loadUSAData] nor [handleScopeSelection]
    throws; and with nothing done while the request was pending, the
    selection is empty after the switch. *)
Theorem usa_load_failure_recovered
        (ses : App.Session) (r : FetchResult Topology) (err : string) :
  (0 < App.inFlight ses)%nat →
  App.usaFeatures r = inl err →
  let st := App.state ses in
  let arrived := App.step (App.UsaResponseArrives r) ses in
  let st' := App.state arrived in
  App.notificationContainer st'
  = Notify "Failed to load US states map data. Check the console." error
      :: App.notificationContainer st
  ∧ App.usStateFeatures st' = []
  ∧ App.currentScope st' = App.usa
  ∧ App.currentFeatures st' = []
  ∧ App.activeLocations st' = App.activeLocations st
  ∧ App.isLoading st' = false
  ∧ App.worldCountryFeatures st' = App.worldCountryFeatures st
  ∧ (let back := App.state (App.step (App.SelectScope App.world) arrived) in
     App.currentScope back = App.world
     ∧ App.currentFeatures back = App.worldCountryFeatures st)
  ∧ (∀ st0, App.returned (App.loadUSAData r st0) = true
            ∧ App.returned (App.handleScopeSelection App.usa r st0) = true)
  ∧ (∀ st0, App.currentScope st0 = App.world →
            App.usStateFeatures st0 = [] →
            let done := App.stateOf (App.handleScopeSelection App.usa r st0) in
            App.currentScope done = App.usa
            ∧ App.currentFeatures done = []
            ∧ App.activeLocations done = ∅).
Proof.
  intros Hpos Hr st arrived st'.
  assert (Hst' : st' = App.responseArrives r st).
  { unfold st', arrived, st. cbn [App.step].
    destruct (App.inFlight ses); [lia | reflexivity]. }
  assert (Hcommit : App.commitUSAData r st
                    = App.setUsStateFeatures []
                        (App.showNotification
                           "Failed to load US states map data. Check the console."
                           error
                           (App.consoleError
                              "Error loading USA states map data:" st))).
  { unfold App.commitUSAData. by rewrite Hr. }
  unfold App.responseArrives in Hst'. rewrite Hcommit in Hst'.
  split_and!; try (rewrite Hst'; reflexivity).
  - unfold arrived. cbn [App.step].
    destruct (App.inFlight ses) as [|n]; [lia|].
    unfold App.selectScope. cbn [App.state App.inFlight].
    unfold App.responseArrives. fold st. rewrite Hcommit.
    rewrite decide_False by discriminate. split; reflexivity.
  - intros st0. split.
    + by destruct (loadUSAData_returns r st0) as (? & -> & _).
    + destruct (decide (App.usa = App.currentScope st0)) as [He|Hne].
      * by rewrite He, handleScopeSelection_same.
      * by destruct (handleScopeSelection_other App.usa r st0 Hne)
          as (? & -> & _).
  - intros st0 Hs Hu done. unfold done, App.handleScopeSelection.
    rewrite Hs, decide_False by discriminate.
    unfold App.loadUSAData, App.issuesRequest, App.commitUSAData.
    cbn [App.beginScopeSelection App.usStateFeatures App.setIsLoading
         App.setActiveLocations].
    rewrite Hu, Hr. split_and!; reflexivity.
Qed.

(** The USA is chosen on the mounted world map and the request fails
    with a network error. *)
Lemma usa_load_failure_recovered_witness :
  let ses := App.step (App.SelectScope App.usa)
                      (App.mountedSession worldDocument) in
  let st' := App.state (App.step (App.UsaResponseArrives networkError) ses) in
  (0 < App.inFlight ses)%nat
  ∧ App.usaFeatures networkError = inl "TypeError: Failed to fetch"
  ∧ App.currentScope st' = App.usa
  ∧ App.currentFeatures st' = []
  ∧ App.isLoading st' = false.
Proof.
  intros ses st'.
  assert (Hpos : (0 < App.inFlight ses)%nat) by (vm_compute; lia).
  destruct (usa_load_failure_recovered ses networkError
              "TypeError: Failed to fetch" Hpos eq_refl)
    as (_ & _ & H2 & H3 & _ & H4 & _).
  by split_and!.
Defined.

(** C8, as specified, fails: after the failed request the active scope is
    the USA, not the world that was active before. *)
Lemma load_failure_switches_scope :
  ¬ loadFailureAsSpecified (App.mounted worldDocument) networkError.
Proof.
  intros (_ & _ & _ & H). vm_compute in H. discriminate H.
Qed.

(** A failed world request is rethrown by [loadWorldData] and caught by
    [initialize]: it is logged, the world collection stays empty, and
    nothing is put into the notification container. *)
Lemma world_load_failure_logged_only (r : FetchResult (list GeoFeature)) (err : string) :
  App.worldFeatures r = inl err →
  App.loadWorldData r App.initialState
  = App.Threw err (App.consoleError "Error loading world map data:" App.initialState)
  ∧ App.returned (App.initialize r App.initialState) = true
  ∧ App.worldCountryFeatures (App.mounted r) = []
  ∧ App.notificationContainer (App.mounted r) = []
  ∧ App.consoleErrors (App.mounted r)
    = ["Initialization failed:"; "Error loading world map data:"]
  ∧ App.isLoading (App.mounted r) = false.
Proof.
  intros Hr. unfold App.mounted, App.initialize, App.loadWorldData.
  rewrite Hr. done.
Qed.

(** ** Overlapping requests *)

(** C9, as the component has it.  When a response arrives, the loader
    stores what it yields (the processed features, or the empty collection
    after a failure) and the handler makes the response's scope the active
    one; neither looks at the scope that is active or was chosen last, and
    the selection is left as it is. *)
Theorem response_committed_unconditionally (resp : App4.Response) (st : App4.State) :
  let st' := App4.responseArrives resp st in
  App4.currentScope st' = App4.scopeOf resp
  ∧ App4.currentFeatures st'
    = match App4.processed resp with inr features => features | inl _ => [] end
  ∧ App4.activeLocations st' = App4.activeLocations st
  ∧ App4.isLoading st' = false.
Proof.
  destruct resp as [r|r|r]; cbn;
    [destruct (App.usaFeatures r) | destruct (App4.europeFeatures r)
     | destruct (App4.chinaFeatures r)]; done.
Qed.

(** The same in [src/App.tsx]: when the USA request was issued, what it
    yields is stored whatever scope is active by then. *)
Lemma loadUSAData_commits (r : FetchResult Topology) (st : App.State) :
  App.usStateFeatures st = [] →
  App.usStateFeatures (App.stateOf (App.loadUSAData r st))
  = match App.usaFeatures r with inr features => features | inl _ => [] end.
Proof.
  intros H. unfold App.loadUSAData, App.issuesRequest, App.commitUSAData.
  rewrite H. cbn. by destruct (App.usaFeatures r).
Qed.

(** And a response that arrives is stored whatever is stored already. *)
Lemma responseArrives_commits (r : FetchResult Topology) (st : App.State) :
  App.usStateFeatures (App.responseArrives r st)
  = match App.usaFeatures r with inr features => features | inl _ => [] end
  ∧ App.currentScope (App.responseArrives r st) = App.usa.
Proof.
  unfold App.responseArrives, App.commitUSAData.
  by destruct (App.usaFeatures r).
Qed.

(** Europe's data arriving after China was chosen and shown: Europe
    becomes the active scope. *)
Lemma stale_response_becomes_active :
  App4.currentScope (App4.state chinaOvertakesEurope) = App4.china
  ∧ App4.requested chinaOvertakesEurope = App4.china
  ∧ App4.inFlight chinaOvertakesEurope = [App4.europe]
  ∧ let ses := App4.step (App4.ResponseArrives (App4.EuropeResponse europeDocument))
                         chinaOvertakesEurope in
    App4.currentScope (App4.state ses) = App4.europe
    ∧ App4.currentFeatures (App4.state ses) = [france; spain].
Proof. vm_compute. done. Qed.

(** C9, as specified, fails. *)
Lemma stale_response_not_discarded : ¬ App4.staleResponsesDiscarded.
Proof.
  intros H.
  apply (H chinaOvertakesEurope (App4.EuropeResponse europeDocument)).
  - vm_compute. constructor.
  - vm_compute. discriminate.
  - vm_compute. reflexivity.
Qed.

(** A toggle issued while a scope switch waits for its data is applied to
    the store the switch has already emptied, and is still there when the
    new scope becomes active. *)
Lemma toggle_while_loading_survives_switch :
  let ses :=
    App4.runEvents
      [App4.SelectScope App4.china;
       App4.ToggleLocation "France";
       App4.ResponseArrives (App4.ChinaResponse chinaDocument)]
      (App4.mounted [france; spain]) in
  App4.currentScope (App4.state ses) = App4.china
  ∧ App4.currentFeatures (App4.state ses) = [hubei]
  ∧ App4.activeLocations (App4.state ses) = {[ "France" ]}.
Proof. vm_compute. done. Qed.

(** * Further properties *)

(** ** The identifier of a region, continued *)

Lemma alnum_not_whitespace (c : ascii) :
  JsString.isAlnumOrHyphen c = true → JsString.isWhiteSpace c = false.
Proof.
  destruct c as [[] [] [] [] [] [] [] []]; vm_compute; congruence.
Qed.

Lemma removeOtherChars_chars (s : string) :
  Forall (λ c, JsString.isAlnumOrHyphen c = true)
         (list_ascii_of_string (JsString.removeOtherChars s)).
Proof.
  induction s as [|c s IH]; cbn; [constructor|].
  destruct (JsString.isAlnumOrHyphen c) eqn:Hc; cbn; [by constructor | done].
Qed.

Lemma normalize_fixed (s : string) :
  Forall (λ c, JsString.isAlnumOrHyphen c = true) (list_ascii_of_string s) →
  JsString.normalizedName s = s.
Proof.
  unfold JsString.normalizedName.
  induction s as [|c s IH]; cbn; [done|].
  intros H. apply Forall_cons in H as [Hc Hs].
  rewrite (alnum_not_whitespace c Hc), Hc. f_equal. by apply IH.
Qed.

Lemma replaceWhiteSpace_length (s : string) :
  String.length (JsString.replaceWhiteSpace s) = String.length s.
Proof. induction s; cbn; congruence. Qed.

Lemma removeOtherChars_length (s : string) :
  (String.length (JsString.removeOtherChars s) ≤ String.length s)%nat.
Proof.
  induction s as [|c s IH]; cbn; [done|].
  destruct (JsString.isAlnumOrHyphen c); cbn; lia.
Qed.

(** X1.  The identifier under which a region is addressed holds letters,
    digits and hyphens only, is no longer than the name, and normalizing
    it again changes nothing. *)
Theorem normalizedName_canonical (locationName : string) :
  Forall (λ c, JsString.isAlnumOrHyphen c = true)
         (list_ascii_of_string (JsString.normalizedName locationName))
  ∧ (String.length (JsString.normalizedName locationName)
     ≤ String.length locationName)%nat
  ∧ JsString.normalizedName (JsString.normalizedName locationName)
    = JsString.normalizedName locationName.
Proof.
  split_and!.
  - apply removeOtherChars_chars.
  - unfold JsString.normalizedName.
    rewrite <- (replaceWhiteSpace_length locationName).
    apply removeOtherChars_length.
  - apply normalize_fixed, removeOtherChars_chars.
Qed.

(** ** The document follows the store *)

Lemma list_id_inj (a b : string) : ("list-" +:+ a) = ("list-" +:+ b) → a = b.
Proof. intros H. by injection H. Qed.

Lemma renderPaths_same (fs : list GeoFeature) (S T : gset string) :
  (∀ d, d ∈ fs → (name d ∈ S ↔ name d ∈ T)) →
  Dom.renderPaths fs S = Dom.renderPaths fs T.
Proof.
  intros H. unfold Dom.renderPaths. apply map_ext_in. intros d Hd.
  f_equal. apply bool_decide_ext, H. by apply list_elem_of_In.
Qed.

Lemma renderRows_same (l : list string) (S T : gset string) :
  (∀ m, m ∈ l → (m ∈ S ↔ m ∈ T)) →
  Dom.renderRows l S = Dom.renderRows l T.
Proof.
  intros H. unfold Dom.renderRows. apply map_ext_in. intros m Hm.
  assert (Hb : bool_decide (m ∈ S) = bool_decide (m ∈ T))
    by (apply bool_decide_ext, H; by apply list_elem_of_In).
  by rewrite Hb.
Qed.

Lemma toggle_other (n m : string) (S : gset string) :
  m ≠ n → (m ∈ S ↔ m ∈ Selection.toggle n S).
Proof. intros H. rewrite toggle_elem_of. naive_solver. Qed.

Lemma toggle_self_bool (n : string) (S : gset string) :
  negb (bool_decide (n ∈ S)) = bool_decide (n ∈ Selection.toggle n S).
Proof.
  destruct (decide (n ∈ S)) as [Hin|Hin].
  - rewrite (bool_decide_eq_true_2 _ Hin). symmetry. apply bool_decide_eq_false_2.
    rewrite toggle_elem_of. naive_solver.
  - rewrite (bool_decide_eq_false_2 _ Hin). symmetry. apply bool_decide_eq_true_2.
    rewrite toggle_elem_of. naive_solver.
Qed.

Lemma togglePath_render (fs : list GeoFeature) (n : string) (S : gset string) :
  NoDup (List.map JsString.normalizedName (List.map name fs)) →
  (∀ d, d ∈ fs → JsString.normalizedName (name d) = JsString.normalizedName n →
        name d = n) →
  Dom.togglePath (JsString.normalizedName n) (Dom.renderPaths fs S)
  = Dom.renderPaths fs (Selection.toggle n S).
Proof.
  induction fs as [|d fs IH]; intros Hnd Hinj; [reflexivity|].
  cbn in Hnd. apply NoDup_cons in Hnd as [Hd Hnd].
  cbn [Dom.renderPaths List.map Dom.togglePath Dom.data_name].
  destruct (String.eqb_spec (JsString.normalizedName (name d))
                            (JsString.normalizedName n)) as [Heq|Hne].
  - assert (Hdn : name d = n) by (apply Hinj; [left | done]).
    cbn [Dom.datum Dom.data_name Dom.country_highlight].
    rewrite Hdn, toggle_self_bool. f_equal.
    apply renderPaths_same. intros d' Hd'. apply toggle_other.
    intros Hd'n. apply Hd. rewrite Heq, <- Hd'n.
    apply list_elem_of_In, in_map, in_map. by apply list_elem_of_In.
  - f_equal.
    + f_equal. apply bool_decide_ext, toggle_other. congruence.
    + apply IH; [done|]. intros d' Hd'. apply Hinj. by right.
Qed.

Lemma toggleRow_render (l : list string) (n : string) (S : gset string) :
  NoDup (List.map JsString.normalizedName l) →
  (∀ m, m ∈ l → JsString.normalizedName m = JsString.normalizedName n → m = n) →
  Dom.toggleRow ("list-" +:+ JsString.normalizedName n) (Dom.renderRows l S)
  = Dom.renderRows l (Selection.toggle n S).
Proof.
  induction l as [|m l IH]; intros Hnd Hinj; [reflexivity|].
  cbn in Hnd. apply NoDup_cons in Hnd as [Hm Hnd].
  cbn [Dom.renderRows List.map Dom.toggleRow Dom.id].
  destruct (String.eqb_spec ("list-" +:+ JsString.normalizedName m)
                            ("list-" +:+ JsString.normalizedName n)) as [Heq|Hne].
  - apply list_id_inj in Heq.
    assert (Hmn : m = n) by (apply Hinj; [left | done]).
    cbn [Dom.key Dom.id Dom.selected Dom.checked].
    rewrite Hmn, toggle_self_bool. f_equal.
    apply renderRows_same. intros m' Hm'. apply toggle_other.
    intros ->. apply Hm. rewrite Heq.
    apply list_elem_of_In, in_map. by apply list_elem_of_In.
  - assert (Hmn : m ≠ n) by congruence.
    f_equal.
    + assert (Hb : bool_decide (m ∈ S) = bool_decide (m ∈ Selection.toggle n S))
        by (apply bool_decide_ext, toggle_other; done).
      by rewrite Hb.
    + apply IH; [done|]. intros m' Hm'. apply Hinj. by right.
Qed.

Lemma NoDup_map_filter {A B} (g : A → B) (f : A → bool) (l : list A) :
  NoDup (List.map g l) → NoDup (List.map g (List.filter f l)).
Proof.
  induction l as [|a l IH]; cbn; [done|].
  intros [Ha Hnd]%NoDup_cons. destruct (f a); cbn; [|by apply IH].
  apply NoDup_cons. split; [|by apply IH].
  intros Hin. apply Ha.
  apply list_elem_of_In, in_map_iff in Hin as (a' & <- & Hin).
  apply filter_In in Hin as [Hin _].
  apply list_elem_of_In, in_map. exact Hin.
Qed.

Lemma filteredLocations_sub (fs : list GeoFeature) (q : string) (m : string) :
  m ∈ Selection.filteredLocations fs q → m ∈ List.map name fs.
Proof.
  unfold Selection.filteredLocations, JsString.sort.
  rewrite merge_sort_Permutation.
  rewrite !list_elem_of_In. intros [[H _]%filter_In _]%filter_In. exact H.
Qed.

Lemma filteredLocations_NoDup (fs : list GeoFeature) (q : string) :
  NoDup (List.map JsString.normalizedName (List.map name fs)) →
  NoDup (List.map JsString.normalizedName (Selection.filteredLocations fs q)).
Proof.
  intros H. unfold Selection.filteredLocations, JsString.sort.
  assert (Hp : List.map JsString.normalizedName
                 (merge_sort String.le
                    (List.filter
                       (λ name, JsString.includes (JsString.toLowerCase name)
                                                  (JsString.toLowerCase q))
                       (List.filter JsString.truthy (List.map name fs))))
               ≡ₚ List.map JsString.normalizedName
                    (List.filter
                       (λ name, JsString.includes (JsString.toLowerCase name)
                                                  (JsString.toLowerCase q))
                       (List.filter JsString.truthy (List.map name fs))))
    by apply Permutation_map, merge_sort_Permutation.
  rewrite Hp. by do 2 apply NoDup_map_filter.
Qed.

Lemma normalized_inj_on (l : list string) (m n : string) :
  NoDup (List.map JsString.normalizedName l) →
  m ∈ l → n ∈ l →
  JsString.normalizedName m = JsString.normalizedName n → m = n.
Proof.
  induction l as [|a l IH]; intros Hnd Hm Hn Heq; [by apply elem_of_nil in Hm|].
  cbn in Hnd. apply NoDup_cons in Hnd as [Ha Hnd].
  apply elem_of_cons in Hm as [->|Hm]; apply elem_of_cons in Hn as [->|Hn];
    try done.
  - exfalso. apply Ha. rewrite Heq.
    apply list_elem_of_In, in_map. by apply list_elem_of_In.
  - exfalso. apply Ha. rewrite <- Heq.
    apply list_elem_of_In, in_map. by apply list_elem_of_In.
  - by apply IH.
Qed.

(** X2.  When no two regions of the collection share an identifier, the
    direct update of the map and the list on a toggle of one of its
    regions gives exactly the document drawn from the toggled store. *)
Theorem toggle_document_follows_store
        (features : list GeoFeature) (searchQuery : string)
        (active : gset string) (locationName : string) :
  NoDup (List.map JsString.normalizedName (List.map name features)) →
  locationName ∈ List.map name features →
  Dom.handleLocationToggle locationName (Dom.render features searchQuery active)
  = Dom.render features searchQuery (Selection.toggle locationName active).
Proof.
  intros Hnd Hin. unfold Dom.handleLocationToggle, Dom.render.
  cbn [Dom.paths Dom.rows]. f_equal.
  - apply togglePath_render; [done|].
    intros d Hd Heq.
    apply (normalized_inj_on (List.map name features)); try done.
    apply list_elem_of_In, in_map. by apply list_elem_of_In.
  - apply toggleRow_render; [by apply filteredLocations_NoDup|].
    intros m Hm Heq.
    apply (normalized_inj_on (List.map name features)); try done.
    by eapply filteredLocations_sub.
Qed.

Lemma toggle_document_follows_store_witness :
  NoDup (List.map JsString.normalizedName (List.map name [france; spain]))
  ∧ "Spain" ∈ List.map name [france; spain]
  ∧ Dom.handleLocationToggle "Spain" franceSelectedDocument
    = Dom.render [france; spain] "" (Selection.toggle "Spain" {[ "France" ]}).
Proof.
  assert (H1 : NoDup (List.map JsString.normalizedName
                               (List.map name [france; spain])))
    by compute_done.
  assert (H2 : "Spain" ∈ List.map name [france; spain]) by compute_done.
  split_and!; [exact H1 | exact H2 |].
  exact (toggle_document_follows_store [france; spain] "" {[ "France" ]} "Spain"
                                       H1 H2).
Defined.

(** *** Select-all *)

Lemma setRow_rendered (l : list string) (n : string) (v : bool)
      (sel : string → bool) :
  NoDup (List.map JsString.normalizedName l) →
  Dom.setRow ("list-" +:+ JsString.normalizedName n) v
    (List.map (λ m, {| Dom.key := m;
                       Dom.id := "list-" +:+ JsString.normalizedName m;
                       Dom.selected := sel m; Dom.checked := sel m |}) l)
  = List.map (λ m, {| Dom.key := m;
                      Dom.id := "list-" +:+ JsString.normalizedName m;
                      Dom.selected :=
                        if decide (JsString.normalizedName m
                                   = JsString.normalizedName n)
                        then v else sel m;
                      Dom.checked :=
                        if decide (JsString.normalizedName m
                                   = JsString.normalizedName n)
                        then v else sel m |}) l.
Proof.
  induction l as [|m l IH]; intros Hnd; [reflexivity|].
  cbn in Hnd. apply NoDup_cons in Hnd as [Hm Hnd].
  cbn [List.map Dom.setRow Dom.id].
  destruct (String.eqb_spec ("list-" +:+ JsString.normalizedName m)
                            ("list-" +:+ JsString.normalizedName n)) as [Heq|Hne].
  - apply list_id_inj in Heq. cbn [Dom.key Dom.id].
    rewrite decide_True by done. f_equal.
    apply map_ext_in. intros m' Hm'.
    rewrite decide_False; [done|].
    intros Heq'. apply Hm. rewrite Heq, <- Heq'.
    apply list_elem_of_In, in_map, Hm'.
  - rewrite decide_False by congruence. f_equal. by apply IH.
Qed.

Lemma setRows_rendered (names l : list string) (v : bool) (sel : string → bool) :
  NoDup (List.map JsString.normalizedName l) →
  Dom.setRows names v
    (List.map (λ m, {| Dom.key := m;
                       Dom.id := "list-" +:+ JsString.normalizedName m;
                       Dom.selected := sel m; Dom.checked := sel m |}) l)
  = List.map (λ m, {| Dom.key := m;
                      Dom.id := "list-" +:+ JsString.normalizedName m;
                      Dom.selected :=
                        if bool_decide (JsString.normalizedName m
                                        ∈ List.map JsString.normalizedName names)
                        then v else sel m;
                      Dom.checked :=
                        if bool_decide (JsString.normalizedName m
                                        ∈ List.map JsString.normalizedName names)
                        then v else sel m |}) l.
Proof.
  intros Hnd. revert sel.
  induction names as [|n names IH]; intros sel.
  - cbn. apply map_ext. intros m.
    by rewrite bool_decide_eq_false_2 by apply not_elem_of_nil.
  - change (Dom.setRows (n :: names) v ?rs)
      with (Dom.setRows names v
              (Dom.setRow ("list-" +:+ JsString.normalizedName n) v rs)).
    rewrite setRow_rendered by done.
    rewrite (IH (λ m, if decide (JsString.normalizedName m
                                 = JsString.normalizedName n)
                      then v else sel m)).
    apply map_ext. intros m. cbn [List.map].
    destruct (decide (JsString.normalizedName m = JsString.normalizedName n))
      as [Heq|Hne].
    + rewrite (bool_decide_eq_true_2
                 (JsString.normalizedName m
                  ∈ JsString.normalizedName n
                    :: List.map JsString.normalizedName names))
        by (rewrite Heq; apply list_elem_of_here).
      by destruct (bool_decide _).
    + destruct (decide (JsString.normalizedName m
                        ∈ List.map JsString.normalizedName names)) as [Hin|Hin].
      * rewrite (bool_decide_eq_true_2 _ Hin).
        by rewrite bool_decide_eq_true_2 by (by apply list_elem_of_further).
      * rewrite (bool_decide_eq_false_2 _ Hin).
        rewrite bool_decide_eq_false_2; [done|].
        intros [?|?]%elem_of_cons; done.
Qed.

Lemma setRows_render (features : list GeoFeature) (q : string)
      (v : bool) (S T : gset string) :
  NoDup (List.map JsString.normalizedName (List.map name features)) →
  (∀ m, m ∈ Selection.allLocationNames features → bool_decide (m ∈ T) = v) →
  Dom.setRows (Selection.allLocationNames features) v
    (Dom.renderRows (Selection.filteredLocations features q) S)
  = Dom.renderRows (Selection.filteredLocations features q) T.
Proof.
  intros Hnd HT. unfold Dom.renderRows.
  rewrite (setRows_rendered _ _ v (λ m, bool_decide (m ∈ S)))
    by by apply filteredLocations_NoDup.
  apply map_ext_in. intros m Hm.
  assert (Hall : m ∈ Selection.allLocationNames features).
  { apply list_elem_of_In in Hm. revert Hm.
    unfold Selection.filteredLocations, JsString.sort.
    rewrite merge_sort_Permutation. unfold Selection.allLocationNames.
    rewrite !list_elem_of_In. by intros [H _]%filter_In. }
  rewrite bool_decide_eq_true_2.
  - by rewrite (HT m Hall).
  - apply list_elem_of_In, in_map. by apply list_elem_of_In.
Qed.

(** X3.  For a collection whose regions all have a name and no two of
    which share an identifier, the direct update of the map and the list
    by the select-all control gives exactly the document drawn from the
    store the control leaves. *)
Theorem selectAll_document_follows_store
        (features : list GeoFeature) (searchQuery : string)
        (active : gset string) :
  NoDup (List.map JsString.normalizedName (List.map name features)) →
  named features →
  Dom.selectAllClick features active (Dom.render features searchQuery active)
  = Dom.render features searchQuery (Selection.selectAllClick features active).
Proof.
  intros Hnd Hnamed.
  unfold Dom.selectAllClick, Selection.selectAllClick, Dom.render.
  destruct (size active =? length (Selection.allLocationNames features))%nat;
    cbn [Dom.paths Dom.rows]; f_equal.
  - unfold Dom.highlightAll, Dom.renderPaths. rewrite List.map_map.
    apply map_ext. intros d. cbn. f_equal; symmetry;
      apply bool_decide_eq_false_2; unfold Selection.deselectAll; set_solver.
  - apply setRows_render; [done|]. intros m _.
    apply bool_decide_eq_false_2. unfold Selection.deselectAll. set_solver.
  - unfold Dom.highlightAll, Dom.renderPaths. rewrite List.map_map.
    apply map_ext_in. intros d Hd. cbn. f_equal. symmetry.
    apply bool_decide_eq_true_2. apply selectAll_elem_of.
    apply allLocationNames_elem_of. split.
    + apply list_elem_of_In, in_map, Hd.
    + apply (proj1 (Forall_forall _ _) Hnamed). by apply list_elem_of_In.
  - apply setRows_render; [done|]. intros m Hm.
    apply bool_decide_eq_true_2. by apply selectAll_elem_of.
Qed.

Lemma selectAll_document_follows_store_witness :
  NoDup (List.map JsString.normalizedName (List.map name [france; spain]))
  ∧ named [france; spain]
  ∧ Dom.selectAllClick [france; spain] {[ "France" ]} franceSelectedDocument
    = Dom.render [france; spain] ""
                 (Selection.selectAllClick [france; spain] {[ "France" ]}).
Proof.
  assert (H1 : NoDup (List.map JsString.normalizedName
                               (List.map name [france; spain])))
    by compute_done.
  assert (H2 : named [france; spain]) by (repeat constructor; discriminate).
  split_and!; [exact H1 | exact H2 |].
  exact (selectAll_document_follows_store [france; spain] "" {[ "France" ]}
                                          H1 H2).
Defined.

(** *** A click on a list row *)

Lemma toggleRow_twice (rowId : string) (rs : list Dom.ListRow) :
  Forall (λ r, Dom.checked r = Dom.selected r) rs →
  Dom.toggleRow rowId (Dom.toggleRow rowId rs) = rs.
Proof.
  induction 1 as [|r rs Hr _ IH]; [reflexivity|].
  cbn [Dom.toggleRow].
  destruct (String.eqb (Dom.id r) rowId) eqn:Heq.
  - cbn [Dom.toggleRow Dom.id]. rewrite Heq.
    cbn [Dom.key Dom.id Dom.selected]. rewrite negb_involutive.
    destruct r as [k i s c]. cbn in *. by rewrite Hr.
  - cbn [Dom.toggleRow]. rewrite Heq. by rewrite IH.
Qed.

Lemma renderRows_checked (l : list string) (S : gset string) :
  Forall (λ r, Dom.checked r = Dom.selected r) (Dom.renderRows l S).
Proof.
  unfold Dom.renderRows. apply Forall_forall. intros r Hr.
  apply list_elem_of_In, in_map_iff in Hr as (m & <- & _). reflexivity.
Qed.

(** X5.  A click on a list row flips the row twice, once in the row's own
    handler and once in [handleLocationToggle]: the rows are left as they
    were drawn, so the clicked row does not show the toggled store, while
    the path on the map is flipped at once. *)
Theorem rowClick_leaves_rows
        (features : list GeoFeature) (searchQuery : string)
        (active : gset string) (locationName : string) :
  locationName ∈ Selection.filteredLocations features searchQuery →
  let doc := Dom.render features searchQuery active in
  Dom.rows (Dom.rowClick locationName doc) = Dom.rows doc
  ∧ Dom.paths (Dom.rowClick locationName doc)
    = Dom.togglePath (JsString.normalizedName locationName) (Dom.paths doc)
  ∧ Dom.rows (Dom.rowClick locationName doc)
    ≠ Dom.rows (Dom.render features searchQuery
                           (Selection.toggle locationName active)).
Proof.
  intros Hin doc.
  assert (Hrows : Dom.rows (Dom.rowClick locationName doc) = Dom.rows doc).
  { unfold Dom.rowClick, Dom.handleLocationToggle. cbn [Dom.rows Dom.paths].
    apply toggleRow_twice, renderRows_checked. }
  split_and!; [exact Hrows | reflexivity |].
  rewrite Hrows. cbn [doc Dom.render Dom.rows]. unfold Dom.renderRows.
  intros Heq.
  pose proof (proj1 map_ext_in_iff Heq locationName
                    (proj1 (list_elem_of_In _ _) Hin)) as Hrow.
  cbn beta in Hrow. injection Hrow as Hb _.
  rewrite <- toggle_self_bool in Hb. by destruct (bool_decide _).
Qed.

Lemma rowClick_leaves_rows_witness :
  "Spain" ∈ Selection.filteredLocations [france; spain] ""
  ∧ Dom.rows (Dom.rowClick "Spain" franceSelectedDocument)
    = Dom.rows franceSelectedDocument.
Proof.
  assert (H : "Spain" ∈ Selection.filteredLocations [france; spain] "")
    by compute_done.
  split; [exact H|].
  exact (proj1 (rowClick_leaves_rows [france; spain] "" {[ "France" ]} "Spain" H)).
Defined.

(** *** The select-all control's title and its action *)

Lemma length_filter_map_name (f : string → bool) (fs : list GeoFeature) :
  length (List.filter (λ d, f (name d)) fs)
  = length (List.filter f (List.map name fs)).
Proof.
  induction fs as [|d fs IH]; cbn; [done|].
  destruct (f (name d)); cbn; by rewrite IH.
Qed.

(** X4.  When the select-all control is drawn as active, with the title
    "Deselect all locations", a click on it empties the store; otherwise
    a click leaves the store holding exactly the names of the active
    collection.  When the active collection has a name at all, the
    control is drawn so exactly when a click empties the store. *)
Theorem selectAll_title_matches_action (st : App.State) :
  let names := Selection.allLocationNames (App.currentFeatures st) in
  App.activeLocations (App.selectAllClick st)
  = (if Ui.selectAllHighlighted st then ∅ else list_to_set names)
  ∧ (names ≠ [] →
     (Ui.selectAllHighlighted st = true
      ↔ App.activeLocations (App.selectAllClick st) = ∅)).
Proof.
  intros names.
  assert (Hhl : Ui.selectAllHighlighted st
                = (size (App.activeLocations st) =? length names)%nat
                  && (0 <? size (App.activeLocations st))%nat).
  { unfold Ui.selectAllHighlighted. by rewrite length_filter_map_name. }
  rewrite Hhl, selectAllClick_cases. fold names.
  destruct (Nat.eqb_spec (size (App.activeLocations st)) (length names))
    as [Heq|Hne]; cbn [andb].
  - split.
    + destruct (Nat.ltb_spec 0 (size (App.activeLocations st))) as [Hpos|Hzero];
        [reflexivity|].
      assert (Hnil : names = []) by (apply length_zero_iff_nil; lia).
      by rewrite Hnil.
    + intros Hnames. split; [done|]. intros _. apply Nat.ltb_lt.
      destruct names; [done | cbn in Heq; lia].
  - split; [reflexivity|]. intros Hnames. split; [done|].
    intros Hempty. exfalso. destruct names as [|n names']; [done|].
    apply (not_elem_of_empty (C := gset string) n). rewrite <- Hempty.
    set_solver.
Qed.

(** With both countries of the world map selected the control reads
    "Deselect all locations", and a click empties the store. *)
Lemma selectAll_title_matches_action_witness :
  Selection.allLocationNames (App.currentFeatures allSelected) ≠ []
  ∧ Ui.selectAllHighlighted allSelected = true
  ∧ App.activeLocations (App.selectAllClick allSelected) = ∅.
Proof.
  assert (Hne : Selection.allLocationNames (App.currentFeatures allSelected) ≠ [])
    by discriminate.
  assert (Hhl : Ui.selectAllHighlighted allSelected = true) by (by vm_compute).
  split_and!; [exact Hne | exact Hhl |].
  by apply (proj2 (selectAll_title_matches_action allSelected) Hne).
Defined.

(** *** Labels *)

Lemma map_name_filter (f : string → bool) (fs : list GeoFeature) :
  List.map name (List.filter (λ d, f (name d)) fs)
  = List.filter f (List.map name fs).
Proof.
  induction fs as [|d fs IH]; cbn; [done|].
  destruct (f (name d)); cbn; by rewrite IH.
Qed.

Lemma NoDup_filter_list {A} (f : A → bool) (l : list A) :
  NoDup l → NoDup (List.filter f l).
Proof.
  intros H. rewrite <- (List.map_id (List.filter f l)).
  apply NoDup_map_filter. by rewrite List.map_id.
Qed.

(** X6.  When the regions of the active collection have distinct names
    and the selection lies within it, the label join receives one feature
    per selected name: as many labels as the counter shows, named as the
    store says. *)
Theorem labels_one_per_selected (st : App.State) :
  NoDup (List.map name (App.currentFeatures st)) →
  App.selectionWithinScope st →
  length (Ui.selectedFeatures st) = size (App.activeLocations st)
  ∧ ∀ n, n ∈ List.map name (Ui.selectedFeatures st) ↔ n ∈ App.activeLocations st.
Proof.
  intros Hnd Hin. unfold Ui.selectedFeatures.
  pose proof (map_name_filter (λ m, bool_decide (m ∈ App.activeLocations st))
                              (App.currentFeatures st)) as Hmap.
  cbn beta in Hmap.
  assert (Hmem : ∀ n, n ∈ List.filter
                            (λ m, bool_decide (m ∈ App.activeLocations st))
                            (List.map name (App.currentFeatures st))
                      ↔ n ∈ App.activeLocations st).
  { intros n.
    rewrite list_elem_of_In, filter_In, bool_decide_eq_true, <- list_elem_of_In.
    split; [tauto | intros H; split; [by apply Hin | done]]. }
  split.
  - rewrite <- (length_map name), Hmap.
    rewrite <- (size_list_to_set (C := gset string))
      by by apply NoDup_filter_list.
    f_equal. apply set_eq. intros n. rewrite elem_of_list_to_set. apply Hmem.
  - intros n. rewrite Hmap. apply Hmem.
Qed.

Lemma franceSelected_within_scope : App.selectionWithinScope franceSelected.
Proof.
  apply (run_within_scope [App.Toggle "France"] (App.mounted worldDocument)).
  - intros n Hn. by apply elem_of_empty in Hn.
  - vm_compute. repeat split; repeat constructor.
Qed.

Lemma labels_one_per_selected_witness :
  NoDup (List.map name (App.currentFeatures franceSelected))
  ∧ App.selectionWithinScope franceSelected
  ∧ length (Ui.selectedFeatures franceSelected)
    = size (App.activeLocations franceSelected).
Proof.
  assert (H1 : NoDup (List.map name (App.currentFeatures franceSelected)))
    by compute_done.
  split_and!; [exact H1 | exact franceSelected_within_scope |].
  exact (proj1 (labels_one_per_selected franceSelected H1
                                        franceSelected_within_scope)).
Defined.

(** ** The search box, continued *)

Lemma lowerChar_idempotent (c : ascii) :
  JsString.lowerChar (JsString.lowerChar c) = JsString.lowerChar c.
Proof. destruct c as [[] [] [] [] [] [] [] []]; reflexivity. Qed.

Lemma toLowerCase_idempotent (s : string) :
  JsString.toLowerCase (JsString.toLowerCase s) = JsString.toLowerCase s.
Proof.
  induction s as [|c s IH]; [reflexivity|].
  cbn. by rewrite lowerChar_idempotent, IH.
Qed.

Lemma toLowerCase_app (s t : string) :
  JsString.toLowerCase (s +:+ t)
  = JsString.toLowerCase s +:+ JsString.toLowerCase t.
Proof.
  induction s as [|c s IH]; [reflexivity|].
  change (String (JsString.lowerChar c) (JsString.toLowerCase (s +:+ t))
          = String (JsString.lowerChar c)
                   (JsString.toLowerCase s +:+ JsString.toLowerCase t)).
  by rewrite IH.
Qed.

Lemma string_app_assoc (a b c : string) : (a +:+ b) +:+ c = a +:+ (b +:+ c).
Proof.
  induction a as [|x a IH]; [reflexivity|].
  change (String x ((a +:+ b) +:+ c) = String x (a +:+ (b +:+ c))).
  by rewrite IH.
Qed.

Lemma filteredLocations_elem_of
      (features : list GeoFeature) (q : string) (n : string) :
  n ∈ Selection.filteredLocations features q
  ↔ n ∈ List.map name features ∧ n ≠ ""
    ∧ ∃ a b, JsString.toLowerCase n = a +:+ JsString.toLowerCase q +:+ b.
Proof.
  unfold Selection.filteredLocations, JsString.sort.
  rewrite merge_sort_Permutation.
  rewrite list_elem_of_In, !filter_In, <- list_elem_of_In.
  rewrite includes_substring, truthy_nonempty. tauto.
Qed.

(** X7.  The list under the search box does not depend on the case of
    the query, and a query extended at either end never shows a name the
    shorter query did not show. *)
Theorem search_ignores_case_and_narrows
        (features : list GeoFeature) (q q' : string) :
  Selection.filteredLocations features (JsString.toLowerCase q)
  = Selection.filteredLocations features q
  ∧ (∀ n, n ∈ Selection.filteredLocations features (q +:+ q') →
          n ∈ Selection.filteredLocations features q)
  ∧ (∀ n, n ∈ Selection.filteredLocations features (q' +:+ q) →
          n ∈ Selection.filteredLocations features q).
Proof.
  split_and!.
  - unfold Selection.filteredLocations. by rewrite toLowerCase_idempotent.
  - intros n. rewrite !filteredLocations_elem_of, toLowerCase_app.
    intros (Hn & Hne & a & b & Hab). split_and!; [done | done |].
    exists a, (JsString.toLowerCase q' +:+ b).
    by rewrite Hab, string_app_assoc.
  - intros n. rewrite !filteredLocations_elem_of, toLowerCase_app.
    intros (Hn & Hne & a & b & Hab). split_and!; [done | done |].
    exists (a +:+ JsString.toLowerCase q'), b.
    by rewrite Hab, !string_app_assoc.
Qed.

(** ** The percentage with nothing selected *)

Lemma digits2_pos_size (p : positive) : digits2_pos p = Pos.size p.
Proof. induction p; cbn; congruence. Qed.

Lemma digits2_pos_iter_xO (p : positive) (k : positive) :
  digits2_pos (Pos.iter xO p k) = (digits2_pos p + k)%positive.
Proof.
  revert p. induction k using Pos.peano_ind; intros p.
  - cbn. lia.
  - rewrite Pos.iter_succ. cbn. rewrite IHk. lia.
Qed.

Lemma digits2_pos_le_53 (p : positive) :
  (Z.pos p < 2 ^ 53)%Z → (Z.pos (digits2_pos p) <= 53)%Z.
Proof.
  intros H. rewrite digits2_pos_size.
  pose proof (Pos.size_le p) as Hle.
  destruct (Z_lt_le_dec 53 (Z.pos (Pos.size p))) as [Hgt|]; [|done].
  exfalso.
  assert (H54 : (2 ^ 54 <= 2 ^ Z.pos (Pos.size p))%Z)
    by (apply Z.pow_le_mono_r; lia).
  assert (Hp : (2 ^ Z.pos (Pos.size p) <= Z.pos p~0)%Z).
  { rewrite <- Pos2Z.inj_pow. change 2%positive with 2%positive. exact Hle. }
  change (2 ^ 54)%Z with (2 * 2 ^ 53)%Z in H54. lia.
Qed.

(** A positive integer below 2^53 is a double with no rounding. *)
Lemma ofNat_finite (n : nat) :
  0 < n → (Z.of_nat n < 2 ^ 53)%Z →
  ∃ m e, F64.ofNat n = S754_finite false m e.
Proof.
  intros Hpos Hlt. unfold F64.ofNat.
  destruct (Z.of_nat n) as [|p|p] eqn:Hn; [lia| |lia].
  cbn [binary_normalize]. unfold binary_round.
  pose proof (digits2_pos_le_53 p Hlt) as Hd.
  set (d := digits2_pos p) in *.
  assert (Hfexp : fexp F64.prec F64.emax (Z.pos d + 0) = (Z.pos d - 53)%Z).
  { unfold fexp, emin, F64.prec, F64.emax. lia. }
  rewrite Hfexp. unfold shl_align.
  destruct (Z.pos d - 53 - 0)%Z as [|q|q] eqn:Hq; [|lia|].
  - (* d = 53 *)
    unfold binary_round_aux, shr_fexp. cbn [Zdigits2 shr_record_of_loc].
    fold d.
    assert (Hn0 : (fexp F64.prec F64.emax (Z.pos d + 0) - 0 = 0)%Z) by lia.
    rewrite Hn0. cbn [shr shr_m loc_of_shr_record round_nearest_even Zdigits2].
    fold d. rewrite Hn0. cbn [shr shr_m].
    eexists _, _. reflexivity.
  - (* d < 53 *)
    assert (Hdig : digits2_pos (Pos.iter xO p q) = (d + q)%positive)
      by apply digits2_pos_iter_xO.
    assert (Hsum : (Z.pos (d + q) = 53)%Z) by lia.
    unfold binary_round_aux, shr_fexp. cbn [Zdigits2 shr_record_of_loc].
    rewrite Hdig.
    assert (Hn0 : (fexp F64.prec F64.emax (Z.pos (d + q) + (Z.pos d - 53))
                   - (Z.pos d - 53) = 0)%Z).
    { unfold fexp, emin, F64.prec, F64.emax. lia. }
    rewrite Hn0. cbn [shr shr_m loc_of_shr_record round_nearest_even Zdigits2].
    rewrite Hdig, Hn0. cbn [shr shr_m].
    assert (Hle : (Z.pos d - 53 <=? F64.emax - F64.prec)%Z = true).
    { apply Z.leb_le. unfold F64.emax, F64.prec. lia. }
    rewrite Hle. eexists _, _. reflexivity.
Qed.

Lemma zero_percent (n : nat) :
  0 < n → (Z.of_nat n < 2 ^ 53)%Z →
  F64.toFixed1 (F64.mul (F64.div (F64.ofNat 0) (F64.ofNat n)) (F64.ofNat 100))
  = Some "0.0".
Proof.
  intros Hpos Hlt. destruct (ofNat_finite n Hpos Hlt) as (m & e & ->).
  reflexivity.
Qed.

(** X8.  With nothing selected the counter shows "0.0", whatever the size
    of the active collection (below 2^53, where a count is a double with
    no rounding): zero divided by a positive double is zero. *)
Theorem percentage_nothing_selected (st : App.State) :
  App.activeLocations st = ∅ →
  (Z.of_nat (length (App.currentFeatures st)) < 2 ^ 53)%Z →
  App.percentage st = Some "0.0".
Proof.
  intros Ha Hlt.
  assert (Ht : App.totalReference st = length (App.currentFeatures st)).
  { unfold App.totalReference, App.currentFeatures.
    by destruct (App.currentScope st). }
  unfold App.percentage, App.locationsCount. rewrite Ht, Ha.
  destruct (Nat.ltb_spec 0 (length (App.currentFeatures st))) as [Hpos|_];
    [|reflexivity].
  change (size (∅ : gset string)) with 0%nat. by apply zero_percent.
Qed.

Lemma percentage_nothing_selected_witness :
  App.percentage (App.mounted worldDocument) = Some "0.0".
Proof.
  apply percentage_nothing_selected; [reflexivity | by vm_compute].
Defined.

(** ** What the operations leave alone *)

Lemma handleScopeSelection_frame
      (scope : App.Scope) (r : FetchResult Topology) (st : App.State) :
  let st' := App.stateOf (App.handleScopeSelection scope r st) in
  App.worldCountryFeatures st' = App.worldCountryFeatures st
  ∧ App.searchQuery st' = App.searchQuery st
  ∧ (App.isLoading st = false → App.isLoading st' = false)
  ∧ (App.usStateFeatures st ≠ [] → App.usStateFeatures st' = App.usStateFeatures st).
Proof.
  unfold App.handleScopeSelection.
  destruct (decide (scope = App.currentScope st)); [by split_and!|].
  destruct scope; cbn [App.andThen]; [by split_and!|].
  unfold App.loadUSAData, App.issuesRequest, App.commitUSAData.
  cbn [App.beginScopeSelection App.usStateFeatures App.setIsLoading
       App.setActiveLocations].
  destruct (App.usStateFeatures st) as [|d fs] eqn:Hu; cbn.
  - destruct (App.usaFeatures r); cbn; split_and!; done.
  - rewrite Hu. split_and!; done.
Qed.

Lemma applyOp_frame (op : App.Op) (st : App.State) :
  App.worldCountryFeatures (App.applyOp op st) = App.worldCountryFeatures st
  ∧ App.searchQuery (App.applyOp op st) = App.searchQuery st
  ∧ (App.isLoading st = false → App.isLoading (App.applyOp op st) = false)
  ∧ (App.usStateFeatures st ≠ [] →
     App.usStateFeatures (App.applyOp op st) = App.usStateFeatures st).
Proof.
  destruct op as [m| |scope r]; try by split_and!.
  apply handleScopeSelection_frame.
Qed.

Lemma run_frame (ops : list App.Op) (st : App.State) :
  App.worldCountryFeatures (App.run ops st) = App.worldCountryFeatures st
  ∧ App.searchQuery (App.run ops st) = App.searchQuery st
  ∧ (App.isLoading st = false → App.isLoading (App.run ops st) = false)
  ∧ (App.usStateFeatures st ≠ [] →
     App.usStateFeatures (App.run ops st) = App.usStateFeatures st).
Proof.
  revert st. induction ops as [|op ops IH]; intros st; [by split_and!|].
  change (App.run (op :: ops) st) with (App.run ops (App.applyOp op st)).
  destruct (IH (App.applyOp op st)) as (Hw & Hq & Hl & Hu).
  destruct (applyOp_frame op st) as (Hw' & Hq' & Hl' & Hu').
  split_and!.
  - by rewrite Hw.
  - by rewrite Hq.
  - intros H. by apply Hl, Hl'.
  - intros H. rewrite Hu; [by apply Hu'|]. by rewrite Hu'.
Qed.

Lemma step_loaded_kept (ev : App.Event) (ses : App.Session) :
  App.inFlight ses = 0%nat →
  App.usStateFeatures (App.state ses) ≠ [] →
  App.inFlight (App.step ev ses) = 0%nat
  ∧ App.usStateFeatures (App.state (App.step ev ses))
    = App.usStateFeatures (App.state ses)
  ∧ App.worldCountryFeatures (App.state (App.step ev ses))
    = App.worldCountryFeatures (App.state ses).
Proof.
  intros H0 Hu. destruct ses as [st n]. cbn in H0, Hu. subst n.
  destruct ev as [scope|r|m|]; cbn [App.step App.state App.inFlight];
    try by split_and!.
  unfold App.selectScope. cbn [App.state App.inFlight].
  destruct (decide (scope = App.currentScope st)); [by split_and!|].
  destruct scope; [by split_and!|].
  unfold App.issuesRequest.
  cbn [App.beginScopeSelection App.usStateFeatures App.setIsLoading
       App.setActiveLocations].
  destruct (App.usStateFeatures st) eqn:E; [done|].
  cbn. rewrite E. by split_and!.
Qed.

(** X9.  Once the USA states are stored and no USA request is pending,
    nothing the user does changes the USA collection or the world
    collection, and no request is issued again. *)
Theorem loaded_collections_kept (events : list App.Event) (ses : App.Session) :
  App.inFlight ses = 0%nat →
  App.usStateFeatures (App.state ses) ≠ [] →
  App.usStateFeatures (App.state (App.runEvents events ses))
  = App.usStateFeatures (App.state ses)
  ∧ App.worldCountryFeatures (App.state (App.runEvents events ses))
    = App.worldCountryFeatures (App.state ses)
  ∧ App.inFlight (App.runEvents events ses) = 0%nat.
Proof.
  revert ses. induction events as [|ev events IH]; intros ses H0 Hu;
    [by split_and!|].
  change (App.runEvents (ev :: events) ses)
    with (App.runEvents events (App.step ev ses)).
  destruct (step_loaded_kept ev ses H0 Hu) as (H0' & Hu' & Hw').
  destruct (IH (App.step ev ses) H0' ltac:(by rewrite Hu')) as (-> & -> & ->).
  by split_and!.
Qed.

Lemma loaded_collections_kept_witness :
  let events :=
    [App.ToggleLocation "Texas"; App.ClickSelectAll; App.SelectScope App.world;
     App.SelectScope App.usa; App.UsaResponseArrives networkError] in
  App.inFlight (App.mkSession usaShown 0) = 0%nat
  ∧ App.usStateFeatures usaShown ≠ []
  ∧ App.usStateFeatures
      (App.state (App.runEvents events (App.mkSession usaShown 0)))
    = [texas; ohio].
Proof.
  intros events.
  assert (H : App.usStateFeatures (App.state (App.mkSession usaShown 0)) ≠ [])
    by (vm_compute; discriminate).
  split_and!; [reflexivity | exact H |].
  destruct (loaded_collections_kept events (App.mkSession usaShown 0) eq_refl H)
    as (-> & _). reflexivity.
Defined.

(** While a request is pending it is otherwise: the scope control still
    shows the world, the USA can be chosen a second time, and the second
    response replaces what the first one stored. *)
Lemma second_response_replaces_states :
  let ses :=
    App.runEvents
      [App.SelectScope App.usa; App.SelectScope App.usa;
       App.UsaResponseArrives usaDocument]
      (App.mountedSession worldDocument) in
  App.usStateFeatures (App.state ses) = [texas; ohio]
  ∧ App.inFlight ses = 1%nat
  ∧ App.usStateFeatures
      (App.state (App.step (App.UsaResponseArrives networkError) ses)) = [].
Proof. by vm_compute. Qed.

Lemma mounted_not_loading (r : FetchResult (list GeoFeature)) :
  App.isLoading (App.mounted r) = false.
Proof.
  unfold App.mounted, App.initialize, App.loadWorldData.
  by destruct (App.worldFeatures r).
Qed.

(** X10.  The loading flag is down in every state reached from mount by
    completed operations, whether the world request and the USA requests
    succeeded or failed. *)
Theorem loading_overlay_cleared
        (r : FetchResult (list GeoFeature)) (ops : list App.Op) :
  App.isLoading (App.run ops (App.mounted r)) = false.
Proof. apply run_frame, mounted_not_loading. Qed.

(** X11.  From the world map, a switch to the USA and back shows the same
    world collection and the same list under the same query as before,
    whatever the USA request yields; the selection is empty. *)
Theorem scope_round_trip
        (r r' : FetchResult Topology) (st : App.State) :
  App.currentScope st = App.world →
  let st' := App.run [App.SwitchScope App.usa r; App.SwitchScope App.world r'] st in
  App.currentScope st' = App.world
  ∧ App.currentFeatures st' = App.currentFeatures st
  ∧ App.filteredLocations st' = App.filteredLocations st
  ∧ App.activeLocations st' = ∅.
Proof.
  intros Hw st'.
  destruct (run_frame [App.SwitchScope App.usa r; App.SwitchScope App.world r'] st)
    as (Hwf & Hq & _ & _). fold st' in Hwf, Hq.
  assert (Hne : App.usa ≠ App.currentScope st) by (rewrite Hw; discriminate).
  destruct (handleScopeSelection_other App.usa r st Hne)
    as (st1 & H1 & Hs1 & _ & _).
  assert (Hne' : App.world ≠ App.currentScope st1) by (rewrite Hs1; discriminate).
  destruct (handleScopeSelection_other App.world r' st1 Hne')
    as (st2 & H2 & Hs2 & Ha2 & _).
  assert (Hst' : st' = st2).
  { unfold st'. cbn. rewrite H1. cbn. rewrite H2. reflexivity. }
  assert (Hcf : App.currentFeatures st' = App.currentFeatures st).
  { unfold App.currentFeatures. rewrite Hst', Hs2, Hw, <- Hst'. exact Hwf. }
  split_and!.
  - by rewrite Hst'.
  - exact Hcf.
  - unfold App.filteredLocations. by rewrite Hcf, Hq.
  - by rewrite Hst'.
Qed.

Lemma scope_round_trip_witness :
  App.currentScope (App.mounted worldDocument) = App.world
  ∧ App.filteredLocations
      (App.run [App.SwitchScope App.usa networkError;
                App.SwitchScope App.world usaDocument]
               (App.mounted worldDocument))
    = ["France"; "Spain"].
Proof.
  split; [reflexivity|].
  destruct (scope_round_trip networkError usaDocument (App.mounted worldDocument)
                             eq_refl) as (_ & _ & -> & _).
  vm_compute. reflexivity.
Defined.

(** ** What the loaders let through, and the map after a failed switch *)

Lemma worldFeatures_kept (r : FetchResult (list GeoFeature)) (fs : list GeoFeature) :
  App.worldFeatures r = inr fs →
  Forall (λ d, name d ≠ "" ∧ name d ≠ "Antarctica") fs.
Proof.
  destruct r as [?| |features]; cbn; try discriminate.
  intros [= <-]. apply Forall_forall. intros d Hd.
  apply list_elem_of_In, filter_In in Hd as [_ Hd].
  apply andb_true_iff in Hd as [Hd Ha]. split; [by apply truthy_nonempty|].
  intros H. rewrite H in Ha. discriminate Ha.
Qed.

Lemma usaFeatures_kept (r : FetchResult Topology) (fs : list GeoFeature) :
  App.usaFeatures r = inr fs → Forall (λ d, name d ∈ App.usStates) fs.
Proof.
  destruct r as [?| |topoData]; cbn; try discriminate.
  destruct (objects topoData !! "states"); [|discriminate].
  intros [= <-]. apply Forall_forall. intros d Hd.
  apply list_elem_of_In, filter_In in Hd as [_ Hd].
  apply andb_true_iff in Hd as [_ Hd]. by apply bool_decide_eq_true in Hd.
Qed.

Lemma mounted_kept (r : FetchResult (list GeoFeature)) :
  Forall (λ d, name d ≠ "" ∧ name d ≠ "Antarctica")
         (App.worldCountryFeatures (App.mounted r))
  ∧ App.usStateFeatures (App.mounted r) = [].
Proof.
  unfold App.mounted, App.initialize, App.loadWorldData.
  destruct (App.worldFeatures r) as [err|fs] eqn:Hr; cbn.
  - split; [constructor | reflexivity].
  - split; [by eapply worldFeatures_kept | reflexivity].
Qed.

Lemma applyOp_usa_kept (op : App.Op) (st : App.State) :
  Forall (λ d, name d ∈ App.usStates) (App.usStateFeatures st) →
  Forall (λ d, name d ∈ App.usStates) (App.usStateFeatures (App.applyOp op st)).
Proof.
  intros Hu. destruct op as [m| |scope r]; try assumption.
  cbn. unfold App.handleScopeSelection.
  destruct (decide (scope = App.currentScope st)); [assumption|].
  destruct scope; cbn; [assumption|].
  unfold App.loadUSAData.
  destruct (App.issuesRequest _); cbn; [|assumption].
  unfold App.commitUSAData.
  destruct (App.usaFeatures r) as [err|fs] eqn:Hr; cbn.
  - constructor.
  - by eapply usaFeatures_kept.
Qed.

Lemma run_usa_kept (ops : list App.Op) (st : App.State) :
  Forall (λ d, name d ∈ App.usStates) (App.usStateFeatures st) →
  Forall (λ d, name d ∈ App.usStates) (App.usStateFeatures (App.run ops st)).
Proof.
  revert st. induction ops as [|op ops IH]; intros st H; [exact H|].
  change (App.run (op :: ops) st) with (App.run ops (App.applyOp op st)).
  by apply IH, applyOp_usa_kept.
Qed.

Lemma Antarctica_not_a_state : "Antarctica" ∉ App.usStates.
Proof. by vm_compute. Qed.

Lemma size_usStates : size App.usStates = 50%nat.
Proof. by vm_compute. Qed.

(** X12.  In every state reached from mount, every world region has a
    name other than "Antarctica", every USA region is one of the fifty
    states, and "Antarctica" is never in the list under the search box. *)
Theorem reachable_collections_filtered
        (r : FetchResult (list GeoFeature)) (ops : list App.Op) :
  let st := App.run ops (App.mounted r) in
  (∀ d, d ∈ App.worldCountryFeatures st →
        name d ≠ "" ∧ name d ≠ "Antarctica")
  ∧ (∀ d, d ∈ App.usStateFeatures st → name d ∈ App.usStates)
  ∧ size App.usStates = 50%nat
  ∧ "Antarctica" ∉ App.filteredLocations st.
Proof.
  intros st.
  destruct (mounted_kept r) as [Hw Hu].
  assert (Hw' : Forall (λ d, name d ≠ "" ∧ name d ≠ "Antarctica")
                       (App.worldCountryFeatures st)).
  { unfold st. by rewrite (proj1 (run_frame ops (App.mounted r))). }
  assert (Hu' : Forall (λ d, name d ∈ App.usStates) (App.usStateFeatures st)).
  { apply run_usa_kept. rewrite Hu. constructor. }
  split_and!.
  - by apply Forall_forall.
  - by apply Forall_forall.
  - exact size_usStates.
  - intros Hin. apply filteredLocations_sub in Hin.
    apply list_elem_of_fmap in Hin as (d & Hn & Hd).
    unfold App.currentFeatures in Hd. destruct (App.currentScope st).
    + rewrite Forall_forall in Hw'. destruct (Hw' d Hd) as [_ Hna]. congruence.
    + rewrite Forall_forall in Hu'. specialize (Hu' d Hd). rewrite <- Hn in Hu'.
      by apply Antarctica_not_a_state.
Qed.

(** X13.  A failed world request shows no notification and is never
    repeated: whatever is done afterwards, the world collection stays
    empty, and on the world scope the list is empty and the counter shows
    "0.0". *)
Theorem failed_world_load_not_retried
        (r : FetchResult (list GeoFeature)) (err : string) (ops : list App.Op) :
  App.worldFeatures r = inl err →
  let st := App.run ops (App.mounted r) in
  App.notificationContainer (App.mounted r) = []
  ∧ App.worldCountryFeatures st = []
  ∧ (App.currentScope st = App.world →
     App.filteredLocations st = [] ∧ App.percentage st = Some "0.0").
Proof.
  intros Hr st.
  assert (Hm : App.worldCountryFeatures (App.mounted r) = []
               ∧ App.notificationContainer (App.mounted r) = []).
  { unfold App.mounted, App.initialize, App.loadWorldData. by rewrite Hr. }
  destruct Hm as [Hm Hn].
  assert (Hw : App.worldCountryFeatures st = []).
  { unfold st. by rewrite (proj1 (run_frame ops (App.mounted r))). }
  split_and!; [exact Hn | exact Hw |].
  intros Hs. unfold App.filteredLocations, App.percentage, App.totalReference,
               App.currentFeatures.
  rewrite Hs, Hw. split; reflexivity.
Qed.

Lemma failed_world_load_not_retried_witness :
  App.worldFeatures FetchNoContent = inl "Failed to load world data"
  ∧ App.worldCountryFeatures
      (App.run [App.SwitchScope App.usa usaDocument;
                App.SwitchScope App.world usaDocument]
               (App.mounted FetchNoContent)) = [].
Proof.
  split; [reflexivity|].
  exact (proj1 (proj2 (failed_world_load_not_retried
                         FetchNoContent "Failed to load world data"
                         [App.SwitchScope App.usa usaDocument;
                          App.SwitchScope App.world usaDocument] eq_refl))).
Defined.

(** X14.  After a switch from the world map to the USA whose request
    failed, the drawing effect touches nothing, so the world map stays on
    the page; a click on one of its named paths then puts into the store a
    name that belongs to no region of the active scope. *)
Theorem failed_switch_leaves_stale_map
        (r : FetchResult Topology) (err : string) (st : App.State)
        (doc : Dom.Document) (p : Dom.PathElement) :
  App.currentScope st = App.world →
  App.usStateFeatures st = [] →
  App.usaFeatures r = inl err →
  p ∈ Dom.paths doc →
  name (Dom.datum p) ≠ "" →
  let st' := App.stateOf (App.handleScopeSelection App.usa r st) in
  Ui.drawScope st' doc = doc
  ∧ App.activeLocations (Ui.pathClick p st') = {[ name (Dom.datum p) ]}
  ∧ ¬ App.selectionWithinScope (Ui.pathClick p st').
Proof.
  intros Hs Hu Hr Hp Hn st'.
  assert (Hst' : App.currentScope st' = App.usa
                 ∧ App.usStateFeatures st' = []
                 ∧ App.activeLocations st' = ∅).
  { unfold st', App.handleScopeSelection. rewrite Hs, decide_False by done.
    cbn [App.andThen].
    unfold App.loadUSAData, App.issuesRequest, App.commitUSAData.
    cbn [App.beginScopeSelection App.usStateFeatures App.setIsLoading
         App.setActiveLocations].
    rewrite Hu, Hr. cbn. done. }
  destruct Hst' as (Hs' & Hu' & Ha').
  assert (Hcf : App.currentFeatures st' = []).
  { unfold App.currentFeatures. by rewrite Hs'. }
  assert (Hact : App.activeLocations (Ui.pathClick p st')
                 = {[ name (Dom.datum p) ]}).
  { unfold Ui.pathClick.
    destruct (JsString.truthy (name (Dom.datum p))) eqn:Ht.
    - cbn. rewrite Ha'. unfold Selection.toggle.
      rewrite decide_False by set_solver. set_solver.
    - exfalso. apply Hn. destruct (name (Dom.datum p)); [done | discriminate]. }
  split_and!.
  - unfold Ui.drawScope. by rewrite Hcf.
  - exact Hact.
  - intros Hin. specialize (Hin (name (Dom.datum p))).
    rewrite Hact in Hin.
    assert (Hcf' : App.currentFeatures (Ui.pathClick p st') = []).
    { unfold Ui.pathClick.
      destruct (JsString.truthy (name (Dom.datum p))); exact Hcf. }
    rewrite Hcf' in Hin. specialize (Hin ltac:(set_solver)).
    by apply elem_of_nil in Hin.
Qed.

Lemma francePath_drawn : francePath ∈ Dom.paths franceSelectedDocument.
Proof. vm_compute. apply list_elem_of_here. Qed.

Lemma failed_switch_leaves_stale_map_witness :
  let st' := App.stateOf (App.handleScopeSelection App.usa networkError
                                                   franceSelected) in
  App.currentScope franceSelected = App.world
  ∧ App.usStateFeatures franceSelected = []
  ∧ App.usaFeatures networkError = inl "TypeError: Failed to fetch"
  ∧ francePath ∈ Dom.paths franceSelectedDocument
  ∧ name (Dom.datum francePath) ≠ ""
  ∧ Ui.drawScope st' franceSelectedDocument = franceSelectedDocument
  ∧ App.activeLocations (Ui.pathClick francePath st') = {[ "France" ]}.
Proof.
  split_and!; [reflexivity | reflexivity | reflexivity | exact francePath_drawn
               | discriminate | |].
  - exact (proj1 (failed_switch_leaves_stale_map
                    networkError "TypeError: Failed to fetch" franceSelected
                    franceSelectedDocument francePath
                    eq_refl eq_refl eq_refl francePath_drawn
                    ltac:(discriminate))).
  - exact (proj1 (proj2 (failed_switch_leaves_stale_map
                    networkError "TypeError: Failed to fetch" franceSelected
                    franceSelectedDocument francePath
                    eq_refl eq_refl eq_refl francePath_drawn
                    ltac:(discriminate)))).
Defined.

(** X15.  Once the drawing effect has run on a non-empty active
    collection, a click on any path of the map keeps the selection within
    the active scope. *)
Theorem path_click_within_scope
        (st : App.State) (doc : Dom.Document) (p : Dom.PathElement) :
  App.currentFeatures st ≠ [] →
  App.selectionWithinScope st →
  p ∈ Dom.paths (Ui.drawScope st doc) →
  App.selectionWithinScope (Ui.pathClick p st).
Proof.
  intros Hne Hinv Hp. unfold Ui.drawScope in Hp.
  destruct (App.currentFeatures st) as [|d0 fs] eqn:Hcf; [done|].
  change (0 <? length (d0 :: fs))%nat with true in Hp. cbn [Dom.paths] in Hp.
  unfold Dom.renderPaths in Hp.
  apply list_elem_of_fmap in Hp as (d & -> & Hd). cbn [Dom.datum].
  unfold Ui.pathClick. cbn [Dom.datum].
  destruct (JsString.truthy (name d)); [|exact Hinv].
  apply (applyOp_within_scope (App.Toggle (name d))); [exact Hinv|].
  cbn. rewrite Hcf. apply list_elem_of_fmap. by exists d.
Qed.

Lemma francePath_redrawn :
  francePath ∈ Dom.paths (Ui.drawScope franceSelected franceSelectedDocument).
Proof. vm_compute. apply list_elem_of_here. Qed.

Lemma path_click_within_scope_witness :
  App.currentFeatures franceSelected ≠ []
  ∧ App.selectionWithinScope franceSelected
  ∧ francePath ∈ Dom.paths (Ui.drawScope franceSelected franceSelectedDocument)
  ∧ App.selectionWithinScope (Ui.pathClick francePath franceSelected).
Proof.
  split_and!; [discriminate | exact franceSelected_within_scope
               | exact francePath_redrawn |].
  exact (path_click_within_scope franceSelected franceSelectedDocument francePath
           ltac:(discriminate) franceSelected_within_scope francePath_redrawn).
Defined.

(** ** The fit at the edges of its domain *)

Lemma fit_centers_bounds_witness :
  currentProjectionRef (viewport 800 600) = true
  ∧ pathRef (viewport 800 600) = true
  ∧ updateSvgDimensions (viewport 800 600) = (800, 600)%Z
  ∧ (0 < 800)%Z ∧ (0 < 600)%Z
  ∧ [france] ≠ []
  ∧ squareBounds 800 600 [france]
    = ((JsNum.ofZ 0, JsNum.ofZ 0), (JsNum.ofZ 10, JsNum.ofZ 10))
  ∧ ∃ s tx ty : Qc,
      updateSvgDimensionsAndFit squareBounds (viewport 800 600) [france]
                                Zoom.zoomIdentity
      = Zoom.Transform (JsNum.Fin s) (JsNum.Fin tx) (JsNum.Fin ty)
      ∧ (0 < s)%Qc.
Proof.
  split_and!; [reflexivity | reflexivity | reflexivity | lia | lia | discriminate
               | reflexivity |].
  destruct (fit_centers_bounds
              squareBounds (viewport 800 600) [france] Zoom.zoomIdentity
              800 600 _ _ _ _ eq_refl eq_refl eq_refl ltac:(lia) ltac:(lia)
              ltac:(discriminate) eq_refl ltac:(reflexivity) ltac:(reflexivity))
    as (s & tx & ty & H & Hs & _).
  exists s, tx, ty. split; [exact H | exact Hs].
Defined.

(** The guards let any viewport through that has no zero side. *)
Lemma fit_past_guards_nonzero
      (pathBounds : Z → Z → list GeoFeature → Bounds) (refs : Refs)
      (features : list GeoFeature) (previous : Zoom.ZoomTransform)
      (w h : Z) (x0 y0 x1 y1 : JsNum.num) :
  currentProjectionRef refs = true →
  pathRef refs = true →
  updateSvgDimensions refs = (w, h) →
  w ≠ 0%Z → h ≠ 0%Z →
  pathBounds w h features = ((x0, y0), (x1, y1)) →
  features ≠ [] →
  let scale := JsNum.min (JsNum.div (JsNum.ofZ w) (JsNum.sub x1 x0))
                         (JsNum.div (JsNum.ofZ h) (JsNum.sub y1 y0)) in
  updateSvgDimensionsAndFit pathBounds refs features previous
  = if JsNum.strictEq x0 JsNum.PInf || JsNum.strictEq x1 JsNum.NInf
       || JsNum.strictEq y0 JsNum.PInf || JsNum.strictEq y1 JsNum.NInf
    then Zoom.zoomIdentity
    else Zoom.Transform scale
           (JsNum.div (JsNum.sub (JsNum.ofZ w) (JsNum.mul scale (JsNum.add x0 x1)))
                      JsNum.two)
           (JsNum.div (JsNum.sub (JsNum.ofZ h) (JsNum.mul scale (JsNum.add y0 y1)))
                      JsNum.two).
Proof.
  intros Hproj Hpath Hdims Hw Hh Hb Hne scale.
  unfold updateSvgDimensionsAndFit. rewrite Hproj, Hpath, Hdims, Hb. cbn [negb orb].
  apply Z.eqb_neq in Hw, Hh. rewrite Hw, Hh. cbn [orb].
  destruct features as [|d features]; [done|]. cbn [length Nat.eqb].
  by rewrite translate_scale_identity.
Qed.

Lemma div_by_zero_extent (W p : Qc) :
  (0 < W)%Qc →
  JsNum.div (JsNum.Fin W) (JsNum.sub (JsNum.Fin p) (JsNum.Fin p)) = JsNum.PInf.
Proof.
  intros HW. cbn. rewrite Qcplus_opp_r. unfold JsNum.sgn.
  change (0 ?= 0)%Qc with Eq.
  assert ((W ?= 0)%Qc = Gt) as -> by (by apply Qcgt_alt).
  reflexivity.
Qed.

Lemma translation_at_infinite_scale (W s : Qc) :
  JsNum.isFinite
    (JsNum.div (JsNum.sub (JsNum.Fin W) (JsNum.mul JsNum.PInf (JsNum.Fin s)))
               JsNum.two) = false.
Proof.
  cbn [JsNum.mul]. unfold JsNum.inf_times.
  destruct (JsNum.sgn s); reflexivity.
Qed.

(** X17.  The test for empty bounds does not catch bounds of zero extent:
    for a collection projected onto a single point the stored scale is
    [Infinity] and neither translation is finite. *)
Theorem fit_point_bounds_not_finite
      (pathBounds : Z → Z → list GeoFeature → Bounds) (refs : Refs)
      (features : list GeoFeature) (previous : Zoom.ZoomTransform)
      (w h : Z) (p q : Qc) :
  currentProjectionRef refs = true →
  pathRef refs = true →
  updateSvgDimensions refs = (w, h) →
  (0 < w)%Z → (0 < h)%Z →
  features ≠ [] →
  pathBounds w h features
  = ((JsNum.Fin p, JsNum.Fin q), (JsNum.Fin p, JsNum.Fin q)) →
  let T := updateSvgDimensionsAndFit pathBounds refs features previous in
  Zoom.k T = JsNum.PInf
  ∧ JsNum.isFinite (Zoom.x T) = false
  ∧ JsNum.isFinite (Zoom.y T) = false.
Proof.
  intros Hproj Hpath Hdims Hw Hh Hne Hb T. unfold T.
  rewrite (fit_past_guards pathBounds refs features previous w h _ _ _ _
             Hproj Hpath Hdims Hw Hh Hb Hne).
  cbn [JsNum.strictEq orb].
  assert (Hs : JsNum.min
                 (JsNum.div (JsNum.ofZ w) (JsNum.sub (JsNum.Fin p) (JsNum.Fin p)))
                 (JsNum.div (JsNum.ofZ h) (JsNum.sub (JsNum.Fin q) (JsNum.Fin q)))
               = JsNum.PInf).
  { unfold JsNum.ofZ. by rewrite !div_by_zero_extent by by apply ofZ_pos. }
  rewrite Hs. cbn [Zoom.k Zoom.x Zoom.y JsNum.add].
  split_and!; [reflexivity | |]; apply translation_at_infinite_scale.
Qed.

Lemma fit_point_bounds_not_finite_witness :
  currentProjectionRef (viewport 800 600) = true
  ∧ pathRef (viewport 800 600) = true
  ∧ updateSvgDimensions (viewport 800 600) = (800, 600)%Z
  ∧ (0 < 800)%Z ∧ (0 < 600)%Z
  ∧ [france] ≠ []
  ∧ pointBounds 800 600 [france]
    = ((JsNum.ofZ 5, JsNum.ofZ 5), (JsNum.ofZ 5, JsNum.ofZ 5))
  ∧ Zoom.k (updateSvgDimensionsAndFit pointBounds (viewport 800 600) [france]
                                      Zoom.zoomIdentity)
    = JsNum.PInf.
Proof.
  split_and!; [reflexivity | reflexivity | reflexivity | lia | lia | discriminate
               | reflexivity |].
  exact (proj1 (fit_point_bounds_not_finite
                  pointBounds (viewport 800 600) [france] Zoom.zoomIdentity
                  800 600 _ _ eq_refl eq_refl eq_refl ltac:(lia) ltac:(lia)
                  ltac:(discriminate) eq_refl)).
Defined.

Lemma ofZ_neg (z : Z) : (z < 0)%Z → (Q2Qc (inject_Z z) < 0)%Qc.
Proof.
  intros H. unfold Qclt. cbn [this Q2Qc].
  rewrite !Qred_correct. change 0%Q with (inject_Z 0). by rewrite <- Zlt_Qlt.
Qed.

Lemma Qcdiv_neg (a b : Qc) : (a < 0)%Qc → (0 < b)%Qc → (a / b < 0)%Qc.
Proof.
  intros Ha Hb. unfold Qcdiv.
  rewrite <- (Qcmult_0_l (/ b)). apply Qcmult_lt_compat_r; [by apply Qcinv_pos | done].
Qed.

(** X18.  For a container without a width the size is taken from the
    parent, 48 off its width and 80 off its height, unchecked: with a
    parent narrower than 48 pixels the width is negative, the zero test
    of the fit lets it through, and the stored scale is negative. *)
Theorem fit_narrow_parent_negative_scale
      (pathBounds : Z → Z → list GeoFeature → Bounds) (refs : Refs)
      (container : Container) (features : list GeoFeature)
      (previous : Zoom.ZoomTransform)
      (parentClientWidth parentClientHeight : Z) (p0 q0 p1 q1 : Qc) :
  currentProjectionRef refs = true →
  pathRef refs = true →
  svgRef refs = true →
  mapContainerRef refs = Some container →
  orElse (clientWidth container) (offsetWidth container) = 0%Z →
  parentElement container = Some (parentClientWidth, parentClientHeight) →
  (parentClientWidth < 48)%Z →
  parentClientHeight ≠ 80%Z →
  features ≠ [] →
  pathBounds (parentClientWidth - 48)%Z (parentClientHeight - 80)%Z features
  = ((JsNum.Fin p0, JsNum.Fin q0), (JsNum.Fin p1, JsNum.Fin q1)) →
  (p0 < p1)%Qc → (q0 < q1)%Qc →
  updateSvgDimensions refs
  = ((parentClientWidth - 48)%Z, (parentClientHeight - 80)%Z)
  ∧ ∃ s, Zoom.k (updateSvgDimensionsAndFit pathBounds refs features previous)
         = JsNum.Fin s
         ∧ (s < 0)%Qc.
Proof.
  intros Hproj Hpath Hsvg Hc Hzero Hparent Hpw Hph Hne Hb Hp Hq.
  assert (Hdims : updateSvgDimensions refs
                  = ((parentClientWidth - 48)%Z, (parentClientHeight - 80)%Z)).
  { unfold updateSvgDimensions. rewrite Hc, Hsvg, Hzero, Hparent. reflexivity. }
  split; [exact Hdims|].
  rewrite (fit_past_guards_nonzero pathBounds refs features previous _ _ _ _ _ _
             Hproj Hpath Hdims ltac:(lia) ltac:(lia) Hb Hne).
  cbn [JsNum.strictEq orb Zoom.k].
  assert (HW : (Q2Qc (inject_Z (parentClientWidth - 48)) < 0)%Qc)
    by (apply ofZ_neg; lia).
  assert (Hdx : (0 < p1 - p0)%Qc) by by apply Qclt_minus_iff in Hp.
  assert (Hdy : (0 < q1 - q0)%Qc) by by apply Qclt_minus_iff in Hq.
  change (JsNum.sub (JsNum.Fin p1) (JsNum.Fin p0)) with (JsNum.Fin (p1 - p0)).
  change (JsNum.sub (JsNum.Fin q1) (JsNum.Fin q0)) with (JsNum.Fin (q1 - q0)).
  unfold JsNum.ofZ. rewrite !div_fin_pos by done.
  destruct (min_fin (Q2Qc (inject_Z (parentClientWidth - 48)) / (p1 - p0))
                    (Q2Qc (inject_Z (parentClientHeight - 80)) / (q1 - q0)))
    as (s & -> & Hsa & _ & _).
  exists s. split; [reflexivity|].
  eapply Qcle_lt_trans; [exact Hsa|]. by apply Qcdiv_neg.
Qed.

Lemma fit_narrow_parent_negative_scale_witness :
  currentProjectionRef collapsed = true
  ∧ pathRef collapsed = true
  ∧ svgRef collapsed = true
  ∧ mapContainerRef collapsed = Some collapsedContainer
  ∧ orElse (clientWidth collapsedContainer) (offsetWidth collapsedContainer) = 0%Z
  ∧ parentElement collapsedContainer = Some (40, 200)%Z
  ∧ (40 < 48)%Z ∧ 200%Z ≠ 80%Z
  ∧ [france] ≠ []
  ∧ squareBounds (40 - 48) (200 - 80) [france]
    = ((JsNum.ofZ 0, JsNum.ofZ 0), (JsNum.ofZ 10, JsNum.ofZ 10))
  ∧ updateSvgDimensions collapsed = (-8, 120)%Z
  ∧ ∃ s, Zoom.k (updateSvgDimensionsAndFit squareBounds collapsed [france]
                                           Zoom.zoomIdentity)
         = JsNum.Fin s
         ∧ (s < 0)%Qc.
Proof.
  split_and!; [reflexivity | reflexivity | reflexivity | reflexivity | reflexivity
               | reflexivity | lia | lia | discriminate | reflexivity | |].
  - exact (proj1 (fit_narrow_parent_negative_scale
                    squareBounds collapsed collapsedContainer [france]
                    Zoom.zoomIdentity 40 200 _ _ _ _
                    eq_refl eq_refl eq_refl eq_refl eq_refl eq_refl
                    ltac:(lia) ltac:(lia) ltac:(discriminate) eq_refl
                    ltac:(reflexivity) ltac:(reflexivity))).
  - exact (proj2 (fit_narrow_parent_negative_scale
                    squareBounds collapsed collapsedContainer [france]
                    Zoom.zoomIdentity 40 200 _ _ _ _
                    eq_refl eq_refl eq_refl eq_refl eq_refl eq_refl
                    ltac:(lia) ltac:(lia) ltac:(discriminate) eq_refl
                    ltac:(reflexivity) ltac:(reflexivity))).
Defined.

(** ** The crop of the exported image, continued *)

(** Inequalities on [Qc] through [Q]. *)
Lemma Qc_le_Q (a b : Qc) : (a ≤ b)%Qc ↔ (this a <= this b)%Q.
Proof. reflexivity. Qed.
Lemma Qc_lt_Q (a b : Qc) : (a < b)%Qc ↔ (this a < this b)%Q.
Proof. reflexivity. Qed.
Lemma Qc_eq_Q (a b : Qc) : a = b ↔ (this a == this b)%Q.
Proof. split; [by intros -> | apply Qc_is_canon]. Qed.
Lemma Qc_plus_Q (a b : Qc) : (this (a + b)%Qc == this a + this b)%Q.
Proof. apply Qred_correct. Qed.
Lemma Qc_mult_Q (a b : Qc) : (this (a * b)%Qc == this a * this b)%Q.
Proof. apply Qred_correct. Qed.
Lemma Qc_minus_Q (a b : Qc) : (this (a - b)%Qc == this a - this b)%Q.
Proof.
  unfold Qcminus, Qcplus, Qcopp, Q2Qc. cbn [this].
  rewrite !Qred_correct. reflexivity.
Qed.
Lemma Q2Qc_Q (q : Q) : (this (Q2Qc q) == q)%Q.
Proof. apply Qred_correct. Qed.

Lemma max_spec (a b : Qc) :
  (a ≤ PngExport.max a b)%Qc ∧ (b ≤ PngExport.max a b)%Qc
  ∧ (PngExport.max a b = a ∨ PngExport.max a b = b).
Proof.
  unfold PngExport.max. destruct (Qclt_le_dec a b) as [H|H].
  - split_and!; [by apply Qclt_le_weak | apply Qcle_refl | by right].
  - split_and!; [apply Qcle_refl | exact H | by left].
Qed.

Lemma crop_extent_zero (w h : Qc) :
  (0 ≤ w)%Qc → (0 ≤ h)%Qc →
  let padding := (PngExport.max w h * Q2Qc (2 # 100))%Qc in
  ((w + padding * Q2Qc 2)%Qc = 0%Qc ↔ w = 0%Qc ∧ h = 0%Qc)
  ∧ ((h + padding * Q2Qc 2)%Qc = 0%Qc ↔ w = 0%Qc ∧ h = 0%Qc)
  ∧ (0 ≤ padding)%Qc.
Proof.
  intros Hw Hh padding. unfold padding.
  destruct (max_spec w h) as (H1 & H2 & H3).
  set (m := PngExport.max w h) in *.
  revert Hw Hh H1 H2 H3.
  rewrite !Qc_le_Q, !Qc_eq_Q, !Qc_plus_Q, !Qc_mult_Q, !Q2Qc_Q.
  intros Hw Hh H1 H2 H3. split_and!.
  - split; [intros H; split; lra | intros [Ha Hb]; destruct H3; lra].
  - split; [intros H; split; lra | intros [Ha Hb]; destruct H3; lra].
  - lra.
Qed.

(** A non-negative size below [2^31] assigned to the canvas is stored
    with its fraction dropped. *)
Lemma setCanvasSize_floor (default : Z) (q : Qc) :
  (0 ≤ q)%Qc → (q < Q2Qc (inject_Z (2 ^ 31)))%Qc →
  PngExport.setCanvasSize default q = Qfloor q.
Proof.
  intros H0 Hlt. unfold PngExport.setCanvasSize, PngExport.toUnsignedLong.
  assert (Hnum : (0 <= Qnum q)%Z).
  { revert H0. rewrite Qc_le_Q. change (this 0%Qc) with 0%Q.
    unfold Qle. destruct (this q) as [n d]. cbn. lia. }
  rewrite Z.quot_div_nonneg by lia.
  assert (Hfl : Qfloor q = (Qnum q / Z.pos (Qden q))%Z)
    by (unfold Qfloor; by destruct (this q)).
  rewrite <- Hfl.
  assert (Hlo : (0 <= Qfloor q)%Z).
  { rewrite Hfl. apply Z.div_pos; lia. }
  assert (Hhi : (Qfloor q < 2 ^ 31)%Z).
  { rewrite Zlt_Qlt. eapply Qle_lt_trans; [apply Qfloor_le|].
    revert Hlt. rewrite Qc_lt_Q, Q2Qc_Q. done. }
  rewrite Z.mod_small by lia.
  assert ((Qfloor q <=? 2147483647)%Z = true) as -> by (apply Z.leb_le; lia).
  reflexivity.
Qed.

Lemma canvas_size_bounds (default : Z) (q : Qc) :
  (0 ≤ q)%Qc → (q < Q2Qc (inject_Z (2 ^ 31)))%Qc →
  let n := PngExport.setCanvasSize default q in
  (0 <= n)%Z
  ∧ (Q2Qc (inject_Z n) ≤ q)%Qc
  ∧ (q < Q2Qc (inject_Z (n + 1)))%Qc.
Proof.
  intros H0 Hlt n. unfold n. rewrite (setCanvasSize_floor default q H0 Hlt).
  split_and!.
  - unfold Qfloor. destruct (this q) as [num den] eqn:E.
    apply Z.div_pos; [|lia].
    revert H0. rewrite Qc_le_Q, E. change (this 0%Qc) with 0%Q.
    unfold Qle. cbn. lia.
  - rewrite Qc_le_Q, Q2Qc_Q. apply Qfloor_le.
  - rewrite Qc_lt_Q, Q2Qc_Q. apply Qlt_floor.
Qed.

(** X19.  When [saveMapAsPNG] draws, on exact numbers: the crop starts at
    non-negative coordinates and has positive width and height; the
    canvas, whose size is an integer, gets three times the crop with the
    fraction dropped (for sizes below [2^31]); and a map lying at
    non-negative coordinates is inside the crop. *)
Theorem export_crop_covers_map
        (refs : Refs) (mapBounds : PngExport.BBox) (crop : PngExport.Crop) :
  (0 ≤ PngExport.width mapBounds)%Qc →
  (0 ≤ PngExport.height mapBounds)%Qc →
  PngExport.saveMapAsPNG refs true mapBounds = PngExport.Draw crop →
  (0 ≤ PngExport.cropX crop)%Qc ∧ (0 ≤ PngExport.cropY crop)%Qc
  ∧ (0 < PngExport.cropWidth crop)%Qc ∧ (0 < PngExport.cropHeight crop)%Qc
  ∧ ((PngExport.cropWidth crop * Q2Qc 3 < Q2Qc (inject_Z (2 ^ 31)))%Qc →
     (0 <= PngExport.canvasWidth crop)%Z
     ∧ (Q2Qc (inject_Z (PngExport.canvasWidth crop))
        ≤ PngExport.cropWidth crop * Q2Qc 3)%Qc
     ∧ (PngExport.cropWidth crop * Q2Qc 3
        < Q2Qc (inject_Z (PngExport.canvasWidth crop + 1)))%Qc)
  ∧ ((PngExport.cropHeight crop * Q2Qc 3 < Q2Qc (inject_Z (2 ^ 31)))%Qc →
     (0 <= PngExport.canvasHeight crop)%Z
     ∧ (Q2Qc (inject_Z (PngExport.canvasHeight crop))
        ≤ PngExport.cropHeight crop * Q2Qc 3)%Qc
     ∧ (PngExport.cropHeight crop * Q2Qc 3
        < Q2Qc (inject_Z (PngExport.canvasHeight crop + 1)))%Qc)
  ∧ ((0 ≤ PngExport.x mapBounds)%Qc →
     (PngExport.cropX crop ≤ PngExport.x mapBounds)%Qc
     ∧ (PngExport.x mapBounds + PngExport.width mapBounds
        ≤ PngExport.cropX crop + PngExport.cropWidth crop)%Qc)
  ∧ ((0 ≤ PngExport.y mapBounds)%Qc →
     (PngExport.cropY crop ≤ PngExport.y mapBounds)%Qc
     ∧ (PngExport.y mapBounds + PngExport.height mapBounds
        ≤ PngExport.cropY crop + PngExport.cropHeight crop)%Qc).
Proof.
  intros Hw Hh. unfold PngExport.saveMapAsPNG.
  destruct (mapContainerRef refs) as [container|]; [|discriminate].
  destruct (negb (svgRef refs) || negb true); [discriminate|].
  destruct (crop_extent_zero _ _ Hw Hh) as (Hcw & Hch & Hp).
  set (padding := (PngExport.max (PngExport.width mapBounds)
                                 (PngExport.height mapBounds)
                   * Q2Qc (2 # 100))%Qc) in *.
  cbv zeta.
  destruct (_ || _ || bool_decide _ || bool_decide _) eqn:Hguard; [discriminate|].
  apply orb_false_iff in Hguard as [Hguard Hh0].
  apply orb_false_iff in Hguard as [_ Hw0].
  apply bool_decide_eq_false in Hw0, Hh0.
  intros [= <-]. cbn [PngExport.cropX PngExport.cropY PngExport.cropWidth
                      PngExport.cropHeight PngExport.canvasWidth
                      PngExport.canvasHeight].
  destruct (max_spec 0%Qc (PngExport.x mapBounds - padding)%Qc) as (Hx0 & Hx1 & Hx2).
  destruct (max_spec 0%Qc (PngExport.y mapBounds - padding)%Qc) as (Hy0 & Hy1 & Hy2).
  set (cx := PngExport.max 0%Qc (PngExport.x mapBounds - padding)%Qc) in *.
  set (cy := PngExport.max 0%Qc (PngExport.y mapBounds - padding)%Qc) in *.
  assert (Hcw' : (0 ≤ PngExport.width mapBounds + padding * Q2Qc 2)%Qc).
  { revert Hw Hp. rewrite !Qc_le_Q, !Qc_plus_Q, !Qc_mult_Q, !Q2Qc_Q. intros; lra. }
  assert (Hch' : (0 ≤ PngExport.height mapBounds + padding * Q2Qc 2)%Qc).
  { revert Hh Hp. rewrite !Qc_le_Q, !Qc_plus_Q, !Qc_mult_Q, !Q2Qc_Q. intros; lra. }
  assert (Hthree : ∀ q : Qc, (0 ≤ q)%Qc → (0 ≤ q * Q2Qc 3)%Qc).
  { intros q. rewrite !Qc_le_Q, Qc_mult_Q, !Q2Qc_Q. intros; lra. }
  split_and!; try done.
  - apply Qcle_lt_or_eq in Hcw' as [H|H]; [exact H | by symmetry in H].
  - apply Qcle_lt_or_eq in Hch' as [H|H]; [exact H | by symmetry in H].
  - intros Hlt. by apply canvas_size_bounds; [apply Hthree|].
  - intros Hlt. by apply canvas_size_bounds; [apply Hthree|].
  - intros Hx. clear Hy0 Hy1 Hy2 Hw0 Hh0 Hcw Hch Hcw' Hch' Hthree.
    revert Hx Hp Hx0 Hx1 Hx2 Hw.
    rewrite !Qc_le_Q, !Qc_eq_Q, !Qc_plus_Q, !Qc_mult_Q, !Qc_minus_Q, !Q2Qc_Q.
    intros Hx Hp Hx0 Hx1 Hx2 Hw. split; destruct Hx2; lra.
  - intros Hy. clear Hx0 Hx1 Hx2 Hw0 Hh0 Hcw Hch Hcw' Hch' Hthree.
    revert Hy Hp Hy0 Hy1 Hy2 Hh.
    rewrite !Qc_le_Q, !Qc_eq_Q, !Qc_plus_Q, !Qc_mult_Q, !Qc_minus_Q, !Q2Qc_Q.
    intros Hy Hp Hy0 Hy1 Hy2 Hh. split; destruct Hy2; lra.
Qed.

(** A map 12 wide and 6.25 high: the crop is 12.48 by 6.73, three times
    that is 37.44 by 20.19, and the canvas is 37 by 20. *)
Lemma export_crop_covers_map_witness :
  (0 ≤ PngExport.width mapBBox)%Qc
  ∧ (0 ≤ PngExport.height mapBBox)%Qc
  ∧ ∃ crop,
      PngExport.saveMapAsPNG (viewport 800 600) true mapBBox = PngExport.Draw crop
      ∧ (0 < PngExport.cropWidth crop)%Qc
      ∧ (PngExport.cropX crop ≤ PngExport.x mapBBox)%Qc
      ∧ PngExport.canvasWidth crop = 37%Z
      ∧ PngExport.canvasHeight crop = 20%Z.
Proof.
  assert (Hw : (0 ≤ PngExport.width mapBBox)%Qc) by (by vm_compute).
  assert (Hh : (0 ≤ PngExport.height mapBBox)%Qc) by (by vm_compute).
  split_and!; [exact Hw | exact Hh |].
  eexists. split; [reflexivity|].
  destruct (export_crop_covers_map (viewport 800 600) mapBBox _ Hw Hh eq_refl)
    as (_ & _ & H1 & _ & _ & _ & H2 & _).
  split_and!; [exact H1 | apply H2; by vm_compute | by vm_compute | by vm_compute].
Defined.

(** X20.  With its refs set, [saveMapAsPNG] refuses with a notification
    exactly when the container has no width or no height, or the map
    group's box has neither width nor height; a box with only one of the
    two is exported. *)
Theorem export_refused_iff
        (refs : Refs) (container : Container) (mapBounds : PngExport.BBox) :
  mapContainerRef refs = Some container →
  svgRef refs = true →
  (0 ≤ PngExport.width mapBounds)%Qc →
  (0 ≤ PngExport.height mapBounds)%Qc →
  (∃ msg, PngExport.saveMapAsPNG refs true mapBounds = PngExport.Refused msg)
  ↔ orElse (clientWidth container) (offsetWidth container) = 0%Z
    ∨ orElse (clientHeight container) (offsetHeight container) = 0%Z
    ∨ (PngExport.width mapBounds = 0%Qc ∧ PngExport.height mapBounds = 0%Qc).
Proof.
  intros Hc Hs Hw Hh. unfold PngExport.saveMapAsPNG. rewrite Hc, Hs.
  cbn [negb orb]. cbv zeta.
  destruct (crop_extent_zero _ _ Hw Hh) as (Hcw & Hch & _).
  destruct (_ || _ || bool_decide _ || bool_decide _) eqn:Hguard.
  - split; [intros _ | intros _; by eexists].
    apply orb_true_iff in Hguard as [Hguard|H].
    + apply orb_true_iff in Hguard as [Hguard|H].
      * apply orb_true_iff in Hguard as [H|H]; apply Z.eqb_eq in H; auto.
      * apply bool_decide_eq_true in H. right; right. by apply Hcw.
    + apply bool_decide_eq_true in H. right; right. by apply Hch.
  - split; [intros [msg [=]]|]. intros H. exfalso.
    apply orb_false_iff in Hguard as [Hguard Hh0].
    apply orb_false_iff in Hguard as [Hguard Hw0].
    apply orb_false_iff in Hguard as [Hcw0 Hch0].
    apply Z.eqb_neq in Hcw0, Hch0.
    apply bool_decide_eq_false in Hw0.
    destruct H as [H|[H|H]]; [done | done |]. by apply Hw0, Hcw.
Qed.

Lemma export_refused_iff_witness :
  mapContainerRef (viewport 800 600)
  = Some {| clientWidth := 800; offsetWidth := 800;
            clientHeight := 600; offsetHeight := 600;
            parentElement := None |}
  ∧ svgRef (viewport 800 600) = true
  ∧ (0 ≤ PngExport.width emptyBBox)%Qc
  ∧ (0 ≤ PngExport.height emptyBBox)%Qc
  ∧ ∃ msg, PngExport.saveMapAsPNG (viewport 800 600) true emptyBBox
           = PngExport.Refused msg.
Proof.
  assert (Hw : (0 ≤ PngExport.width emptyBBox)%Qc) by (by vm_compute).
  assert (Hh : (0 ≤ PngExport.height emptyBBox)%Qc) by (by vm_compute).
  split_and!; [reflexivity | reflexivity | exact Hw | exact Hh |].
  apply (proj2 (export_refused_iff (viewport 800 600) _ emptyBBox
                                   eq_refl eq_refl Hw Hh)).
  right; right. split; reflexivity.
Defined.

(** ** The select-all control twice *)

Lemma selectAllClick_twice_witness :
  size (App.activeLocations franceSelected)
  ≠ length (Selection.allLocationNames (App.currentFeatures franceSelected))
  ∧ NoDup (Selection.allLocationNames (App.currentFeatures franceSelected))
  ∧ App.activeLocations (App.selectAllClick (App.selectAllClick franceSelected))
    = ∅.
Proof.
  assert (H1 : size (App.activeLocations franceSelected)
               ≠ length (Selection.allLocationNames
                           (App.currentFeatures franceSelected)))
    by (vm_compute; lia).
  assert (H2 : NoDup (Selection.allLocationNames
                        (App.currentFeatures franceSelected)))
    by compute_done.
  split_and!; [exact H1 | exact H2 |].
  exact (proj2 (selectAllClick_twice franceSelected H1 H2)).
Defined.

(** ** The four-scope revision, continued *)





(** X22.  In the four-scope revision the store is emptied when a scope is
    chosen, not when its data arrives: a region toggled while the request
    is pending is the selection of the new scope once it is shown. *)
Theorem toggle_while_loading_kept
        (ses : App4.Session) (resp : App4.Response) (locationName : string) :
  App4.scopeOf resp ≠ App4.currentScope (App4.state ses) →
  App4.issuesRequest (App4.scopeOf resp) (App4.state ses) = true →
  let ses' :=
    App4.runEvents
      [App4.SelectScope (App4.scopeOf resp);
       App4.ToggleLocation locationName;
       App4.ResponseArrives resp] ses in
  App4.currentScope (App4.state ses') = App4.scopeOf resp
  ∧ App4.activeLocations (App4.state ses') = {[ locationName ]}
  ∧ App4.isLoading (App4.state ses') = false.
Proof.
  intros Hne Hreq ses'.
  assert (H1 : App4.selectScope (App4.scopeOf resp) ses
               = App4.mkSession
                   (App4.setIsLoading true
                      (App4.setActiveLocations ∅ (App4.state ses)))
                   (App4.inFlight ses ++ [App4.scopeOf resp])
                   (App4.scopeOf resp)).
  { unfold App4.selectScope. rewrite decide_False by done.
    assert (Hreq' : App4.issuesRequest (App4.scopeOf resp)
                      (App4.setIsLoading true
                         (App4.setActiveLocations ∅ (App4.state ses))) = true).
    { revert Hreq. unfold App4.issuesRequest. by destruct (App4.scopeOf resp). }
    by rewrite Hreq'. }
  change ses' with
    (App4.step (App4.ResponseArrives resp)
       (App4.step (App4.ToggleLocation locationName)
          (App4.selectScope (App4.scopeOf resp) ses))).
  rewrite H1. cbn [App4.step App4.state App4.inFlight App4.requested].
  rewrite bool_decide_eq_true_2 by set_solver.
  cbn [App4.state]. unfold App4.responseArrives, App4.finishScopeSelection.
  split_and!; [reflexivity | | reflexivity].
  cbn [App4.activeLocations App4.setCurrentScope App4.setIsLoading].
  assert (Hc : ∀ st, App4.activeLocations (App4.commit resp st)
                     = App4.activeLocations st).
  { intros st. unfold App4.commit.
    destruct resp as [r|r|r];
      [destruct (App.usaFeatures r) | destruct (App4.europeFeatures r)
       | destruct (App4.chinaFeatures r)]; reflexivity. }
  rewrite Hc. cbn. unfold Selection.toggle.
  rewrite decide_False by set_solver. set_solver.
Qed.

Lemma toggle_while_loading_kept_witness :
  let ses' :=
    App4.runEvents
      [App4.SelectScope App4.china;
       App4.ToggleLocation "France";
       App4.ResponseArrives (App4.ChinaResponse chinaDocument)]
      (App4.mounted [france; spain]) in
  App4.scopeOf (App4.ChinaResponse chinaDocument)
  ≠ App4.currentScope (App4.state (App4.mounted [france; spain]))
  ∧ App4.activeLocations (App4.state ses') = {[ "France" ]}.
Proof.
  split; [discriminate|].
  exact (proj1 (proj2 (toggle_while_loading_kept
                         (App4.mounted [france; spain])
                         (App4.ChinaResponse chinaDocument) "France"
                         ltac:(discriminate) eq_refl))).
Defined.
